(** * frida-go: Session, ScriptOptions and SnapshotOptions bindings

    A shallow embedding of the Go bindings in [session.go],
    [script_options.go] and [snapshot_options.go].  The bindings are cgo
    wrappers: every method marshals its arguments, calls one function of
    the native engine and wraps what comes back.  The embedding therefore
    has three layers:

    - the process state the wrappers act on: the native objects they
      allocate and release (script options, byte blobs, with their
      reference counts) and the finalizers registered with the Go runtime;
    - the pseudo-package [C]: string marshalling and the native
      accessors of those objects, plus the blocking engine calls, which
      are opaque and taken as an interface ([C.Engine]);
    - the Go methods themselves, written in a state-and-fault monad, and
      the goroutine/channel protocol of [DetachCtx] as a step function
      over scheduler events. *)

From Stdlib Require Import ZArith String Ascii List Lia Bool.
From Stdlib.Strings Require Import Byte.
From stdpp Require Import base option list.

Open Scope string_scope.
Open Scope list_scope.

(** ** Faults and outcomes *)

(** What ends a call without a Go return value: the Go runtime panic for
    a nil pointer dereference, and the use of a native reference whose
    object has already been freed. *)
Inductive fault : Type :=
| NilPointerDereference
| InvalidReference.

Inductive outcome (St A : Type) : Type :=
| Ok (a : A) (st : St)
| Fault (f : fault).

Arguments Ok {St A} a st.
Arguments Fault {St A} f.

(** ** Process state *)

Abbreviation addr := nat (only parsing).

(** The private fields of the native [FridaScriptOptions] object. *)
Record FridaScriptOptions : Type := {
  ref_count : nat;
  priv_name : option string;
  priv_snapshot : option addr;
  priv_snapshot_transport : Z;
  priv_runtime : Z
}.

(** A reference-counted immutable byte blob of the native side. *)
Record GBytes : Type := {
  g_ref_count : nat;
  g_data : list byte
}.

(** Native objects live at addresses; a freed object leaves [None] behind.
    [finalizers] is the Go runtime's table of pending finalizers
    (addresses of the [GBytes] they will release). *)
Record Process : Type := {
  script_options : list (option FridaScriptOptions);
  gbytes : list (option GBytes);
  finalizers : list addr
}.

Definition empty_process : Process :=
  {| script_options := []; gbytes := []; finalizers := [] |}.

(** ** The monad of the wrappers *)

Definition M (A : Type) : Type := Process -> outcome Process A.

Definition ret {A} (a : A) : M A := fun p => Ok a p.

Definition bind {A B} (m : M A) (f : A -> M B) : M B :=
  fun p => match m p with
           | Ok a p' => f a p'
           | Fault e => Fault e
           end.

Definition panic {A} (e : fault) : M A := fun _ => Fault e.

Notation "'let*' x ':=' m 'in' k" := (bind m (fun x => k))
  (at level 10, x name, m at level 100, k at level 200).
Notation "m ';;' k" := (bind m (fun _ => k))
  (at level 100, k at level 200, right associativity).

(** ** The pseudo-package C *)

Module C.

(** [C.CString] copies the bytes of a Go string and appends a NUL; what
    native code reads through the resulting [char*] are the characters
    before the first NUL. *)
Fixpoint CString (s : string) : string :=
  match s with
  | EmptyString => EmptyString
  | String c rest =>
      if Ascii.eqb c Ascii.zero then EmptyString else String c (CString rest)
  end.

(** [C.GoString] of a [char*]: the empty string for NULL. *)
Definition GoString (p : option string) : string :=
  match p with
  | Some s => s
  | None => ""
  end.

(** *** Script options *)

Definition script_options_deref (o : addr) : M FridaScriptOptions :=
  fun p => match script_options p !! o with
           | Some (Some x) => Ok x p
           | _ => Fault InvalidReference
           end.

Definition script_options_store (o : addr) (x : option FridaScriptOptions)
  : M unit :=
  fun p => Ok tt {| script_options := <[o := x]> (script_options p);
                    gbytes := gbytes p;
                    finalizers := finalizers p |}.

Definition frida_script_options_new : M addr :=
  fun p =>
    Ok (length (script_options p))
       {| script_options :=
            script_options p ++
            [Some {| ref_count := 1; priv_name := None;
                     priv_snapshot := None;
                     priv_snapshot_transport := 0%Z;
                     priv_runtime := 0%Z |}];
          gbytes := gbytes p;
          finalizers := finalizers p |}.

(** *** Byte blobs *)

Definition gbytes_deref (a : addr) : M GBytes :=
  fun p => match gbytes p !! a with
           | Some (Some b) => Ok b p
           | _ => Fault InvalidReference
           end.

Definition gbytes_store (a : addr) (b : option GBytes) : M unit :=
  fun p => Ok tt {| script_options := script_options p;
                    gbytes := <[a := b]> (gbytes p);
                    finalizers := finalizers p |}.

Definition g_bytes_new (data : list byte) : M addr :=
  fun p =>
    Ok (length (gbytes p))
       {| script_options := script_options p;
          gbytes := gbytes p ++ [Some {| g_ref_count := 1; g_data := data |}];
          finalizers := finalizers p |}.

Definition g_bytes_ref (a : addr) : M unit :=
  let* b := gbytes_deref a in
  gbytes_store a (Some {| g_ref_count := S (g_ref_count b);
                          g_data := g_data b |}).

(** Dropping the last reference frees the blob. *)
Definition g_bytes_unref (a : addr) : M unit :=
  let* b := gbytes_deref a in
  if (g_ref_count b <=? 1)%nat
  then gbytes_store a None
  else gbytes_store a (Some {| g_ref_count := pred (g_ref_count b);
                               g_data := g_data b |}).

(** *** Property accessors of the script options *)

Definition frida_script_options_set_name (o : addr) (nameC : string)
  : M unit :=
  let* x := script_options_deref o in
  script_options_store o
    (Some {| ref_count := ref_count x; priv_name := Some nameC;
             priv_snapshot := priv_snapshot x;
             priv_snapshot_transport := priv_snapshot_transport x;
             priv_runtime := priv_runtime x |}).

Definition frida_script_options_get_name (o : addr) : M (option string) :=
  let* x := script_options_deref o in ret (priv_name x).

(** The setter takes its own reference to the new blob and drops the
    one it held to the previous blob. *)
Definition frida_script_options_set_snapshot (o : addr) (v : option addr)
  : M unit :=
  let* x := script_options_deref o in
  match v with Some a => g_bytes_ref a | None => ret tt end ;;
  match priv_snapshot x with Some old => g_bytes_unref old | None => ret tt end ;;
  script_options_store o
    (Some {| ref_count := ref_count x; priv_name := priv_name x;
             priv_snapshot := v;
             priv_snapshot_transport := priv_snapshot_transport x;
             priv_runtime := priv_runtime x |}).

(** The getter hands out the pointer the options hold; it takes no
    reference for the caller. *)
Definition frida_script_options_get_snapshot (o : addr) : M (option addr) :=
  let* x := script_options_deref o in ret (priv_snapshot x).

Definition frida_script_options_set_snapshot_transport (o : addr) (tr : Z)
  : M unit :=
  let* x := script_options_deref o in
  script_options_store o
    (Some {| ref_count := ref_count x; priv_name := priv_name x;
             priv_snapshot := priv_snapshot x;
             priv_snapshot_transport := tr;
             priv_runtime := priv_runtime x |}).

Definition frida_script_options_get_snapshot_transport (o : addr) : M Z :=
  let* x := script_options_deref o in ret (priv_snapshot_transport x).


(** [frida_unref] on script options: the last reference disposes the
    object, which gives up its reference to the snapshot. *)
Definition frida_unref (o : addr) : M unit :=
  let* x := script_options_deref o in
  if (ref_count x <=? 1)%nat
  then (match priv_snapshot x with
        | Some a => g_bytes_unref a
        | None => ret tt
        end ;;
        script_options_store o None)
  else script_options_store o
         (Some {| ref_count := pred (ref_count x);
                  priv_name := priv_name x;
                  priv_snapshot := priv_snapshot x;
                  priv_snapshot_transport := priv_snapshot_transport x;
                  priv_runtime := priv_runtime x |}).

(** *** The blocking engine calls *)

Definition FridaSession := nat.
Definition FridaScript := nat.
Definition FridaSnapshotOptions := nat.
Definition FridaPeerOptions := nat.
Definition FridaPortalOptions := nat.
Definition FridaPortalMembership := nat.

Record GError : Type := { code : Z; message : string }.

(** What the engine reads through a [FridaScriptOptions*] during a call. *)
Record ScriptOptionsView : Type := {
  view_name : option string;
  view_snapshot : option (list byte);
  view_snapshot_transport : Z;
  view_runtime : Z
}.

Definition script_options_read (o : addr) : M ScriptOptionsView :=
  let* x := script_options_deref o in
  let* snap := match priv_snapshot x with
               | Some a => let* b := gbytes_deref a in ret (Some (g_data b))
               | None => ret None
               end in
  ret {| view_name := priv_name x;
         view_snapshot := snap;
         view_snapshot_transport := priv_snapshot_transport x;
         view_runtime := priv_runtime x |}.

(** A blob the engine returns to its caller is a fresh [GBytes] holding
    one reference, or NULL. *)
Definition returned_gbytes (r : option (list byte)) : M (option addr) :=
  match r with
  | Some data => let* a := g_bytes_new data in ret (Some a)
  | None => ret None
  end.

(** The engine is an external collaborator: each synchronous call is
    an arbitrary function of what it is handed, returning the native
    result (a nullable handle or blob) and the [GError*] it set. *)
Class Engine : Type := {
  frida_session_create_script_sync :
    FridaSession -> string -> ScriptOptionsView ->
    option FridaScript * option GError;
  frida_session_create_script_from_bytes_sync :
    FridaSession -> list byte -> ScriptOptionsView ->
    option FridaScript * option GError;
  frida_session_compile_script_sync :
    FridaSession -> string -> ScriptOptionsView ->
    option (list byte) * option GError;
  frida_session_snapshot_script_sync :
    FridaSession -> string -> FridaSnapshotOptions ->
    option (list byte) * option GError;
  frida_session_setup_peer_connection_sync :
    FridaSession -> FridaPeerOptions -> option GError;
  frida_session_join_portal_sync :
    FridaSession -> string -> FridaPortalOptions ->
    option FridaPortalMembership * option GError
}.

End C.

(** ** Helpers of the package *)

Inductive error : Type :=
| FError (e : C.GError)
| ErrContextCancelled.

(** Modelled from the spec: [handleGError] is not among the sources.
    "Every blocking operation surfaces native error codes as a single
    wrapped error type": no [GError] gives the nil error, a [GError] gives
    the wrapped error. *)
Definition handleGError (gErr : option C.GError) : option error :=
  match gErr with
  | Some e => Some (FError e)
  | None => None
  end.

Inductive cleanupType : Type := unrefFrida | unrefGError | unrefGObject.

(** Modelled from the spec: [clean] and its release functions are not
    among the sources.  "Ownership released after use": [clean] drops one
    reference of a non-nil object, with [frida_unref] for engine objects
    and the blob's unref for the [GBytes] the sources pass with
    [unrefGObject]. *)
Definition clean (obj : option addr) (cf : cleanupType) : M unit :=
  match obj with
  | None => ret tt
  | Some a =>
      match cf with
      | unrefFrida => C.frida_unref a
      | unrefGObject => C.g_bytes_unref a
      | unrefGError => ret tt
      end
  end.

(** Modelled from the spec: [goBytesToGBytes] and [getGBytes] are not
    among the sources.  They marshal a byte slice into a fresh native
    blob and copy a native blob out "byte-for-byte"; a NULL blob reads as
    the nil slice. *)
Definition goBytesToGBytes (bts : list byte) : M addr := C.g_bytes_new bts.

Definition getGBytes (bts : option addr) : M (list byte) :=
  match bts with
  | Some a => let* b := C.gbytes_deref a in ret (g_data b)
  | None => ret []
  end.

(** [runtime.SetFinalizer(bts, func(g) { clean(g, unrefGObject) })]
    registers the release with the Go runtime ... *)
Definition runtime_SetFinalizer (bts : addr) : M unit :=
  fun p => Ok tt {| script_options := script_options p;
                    gbytes := gbytes p;
                    finalizers := bts :: finalizers p |}.

Fixpoint remove_first (a : addr) (l : list addr) : option (list addr) :=
  match l with
  | [] => None
  | x :: rest =>
      if Nat.eqb x a then Some rest
      else match remove_first a rest with
           | Some rest' => Some (x :: rest')
           | None => None
           end
  end.

(** ... and the garbage collector runs a pending finalizer at a moment of
    its choosing once the Go variable is unreachable. *)
Definition run_finalizer (bts : addr) : M unit :=
  fun p => match remove_first bts (finalizers p) with
           | Some rest =>
               clean (Some bts) unrefGObject
                     {| script_options := script_options p;
                        gbytes := gbytes p;
                        finalizers := rest |}
           | None => Ok tt p
           end.

Definition ScriptRuntime := Z.
Definition SnapshotTransport := Z.

(** ** snapshot_options.go *)

Module SnapshotOptions.
Record t : Type := { opts : C.FridaSnapshotOptions }.
End SnapshotOptions.

(** ** script_options.go *)

Module ScriptOptions.

Record t : Type := { opts : addr }.

Definition SetName (self : t) (name : string) : M unit :=
  let nameC := C.CString name in
  C.frida_script_options_set_name (opts self) nameC.

Definition SetSnapshot (self : t) (value : list byte) : M unit :=
  let* bts := goBytesToGBytes value in
  runtime_SetFinalizer bts ;;
  C.frida_script_options_set_snapshot (opts self) (Some bts).

Section Transport.
(** The method is declared as [SetSnapshotTransport(tr SnapshotOptions)]
    and hands [C.FridaSnapshotTransport(tr)] to the engine.  Go has no
    conversion from that struct to the C enumeration, so the
    conversion is a parameter here. *)
Variable FridaSnapshotTransport : SnapshotOptions.t -> Z.

Definition SetSnapshotTransport (self : t) (tr : SnapshotOptions.t)
  : M unit :=
  C.frida_script_options_set_snapshot_transport (opts self)
    (FridaSnapshotTransport tr).
End Transport.


Definition GetName (self : t) : M string :=
  let* p := C.frida_script_options_get_name (opts self) in
  ret (C.GoString p).

Definition GetSnapshot (self : t) : M (list byte) :=
  let* snap := C.frida_script_options_get_snapshot (opts self) in
  let* bts := getGBytes snap in
  clean snap unrefGObject ;;
  ret bts.

Definition GetSnapshotTransport (self : t) : M SnapshotTransport :=
  C.frida_script_options_get_snapshot_transport (opts self).

(** Modelled from the spec: [session.go] calls [opts.Name()], a method
    the sources do not declare.  "If options.Name is empty, it is set
    to a fixed default": it reads the name back as [GetName] does. *)
Definition Name (self : t) : M string := GetName self.

End ScriptOptions.

Definition NewScriptOptions (name : string) : M ScriptOptions.t :=
  let* opts := C.frida_script_options_new in
  let nameC := C.CString name in
  C.frida_script_options_set_name opts nameC ;;
  ret {| ScriptOptions.opts := opts |}.

(** ** session.go *)

Module Script.
Record t : Type := { sc : option C.FridaScript }.
End Script.

(** The declarations of [PeerOptions], [PortalOptions] and
    [PortalMembership] are not among the sources; the session methods use
    the first two through their [opts] field and build the third from
    the engine's handle. *)
Module PeerOptions.
Record t : Type := { opts : C.FridaPeerOptions }.
End PeerOptions.

Module PortalOptions.
Record t : Type := { opts : C.FridaPortalOptions }.
End PortalOptions.

Module PortalMembership.
Record t : Type := { mem : option C.FridaPortalMembership }.
End PortalMembership.

Module Session.

Record t : Type := { s : C.FridaSession }.

Section Methods.
Context {E : C.Engine}.

(** [if opts == nil { opts = NewScriptOptions("frida-go") }] *)
Definition options_or_default (opts : option ScriptOptions.t)
  : M ScriptOptions.t :=
  match opts with
  | None => NewScriptOptions "frida-go"
  | Some o => ret o
  end.

Definition CreateScriptWithOptions (self : t) (script : string)
           (opts : option ScriptOptions.t)
  : M (option Script.t * option error) :=
  let sc := C.CString script in
  let* opts := options_or_default opts in
  let* name := ScriptOptions.Name opts in
  (if String.eqb name "" then ScriptOptions.SetName opts "frida-go"
   else ret tt) ;;
  let* view := C.script_options_read (ScriptOptions.opts opts) in
  let '(cScript, err) :=
    C.frida_session_create_script_sync (s self) sc view in
  clean (Some (ScriptOptions.opts opts)) unrefFrida ;;
  ret (Some {| Script.sc := cScript |}, handleGError err).

Definition CreateScript (self : t) (script : string)
  : M (option Script.t * option error) :=
  CreateScriptWithOptions self script None.

Definition CreateScriptBytes (self : t) (script : list byte)
           (opts : option ScriptOptions.t)
  : M (option Script.t * option error) :=
  let* bts := goBytesToGBytes script in
  runtime_SetFinalizer bts ;;
  let* opts := options_or_default opts in
  let* view := C.script_options_read (ScriptOptions.opts opts) in
  let* payload := C.gbytes_deref bts in
  let '(sc, err) :=
    C.frida_session_create_script_from_bytes_sync
      (s self) (g_data payload) view in
  clean (Some (ScriptOptions.opts opts)) unrefFrida ;;
  ret (Some {| Script.sc := sc |}, handleGError err).

Definition CreateScriptWithSnapshot (self : t) (script : string)
           (snapshot : list byte)
  : M (option Script.t * option error) :=
  let* opts := NewScriptOptions "frida-go" in
  ScriptOptions.SetSnapshot opts snapshot ;;
  CreateScriptWithOptions self script (Some opts).

Definition CompileScript (self : t) (script : string)
           (opts : option ScriptOptions.t)
  : M (list byte * option error) :=
  let scriptC := C.CString script in
  let* opts := options_or_default opts in
  let* view := C.script_options_read (ScriptOptions.opts opts) in
  let '(r, err) :=
    C.frida_session_compile_script_sync (s self) scriptC view in
  let* bts := C.returned_gbytes r in
  match err with
  | Some _ =>
      clean (Some (ScriptOptions.opts opts)) unrefFrida ;;
      ret ([], handleGError err)
  | None =>
      let* data := getGBytes bts in
      clean (Some (ScriptOptions.opts opts)) unrefFrida ;;
      ret (data, None)
  end.

Definition SnapshotScript (self : t) (embedScript : string)
           (snapshotOpts : option SnapshotOptions.t)
  : M (list byte * option error) :=
  let embedScriptC := C.CString embedScript in
  match snapshotOpts with
  | None => panic NilPointerDereference
  | Some so =>
      let '(r, err) :=
        C.frida_session_snapshot_script_sync
          (s self) embedScriptC (SnapshotOptions.opts so) in
      let* ret_ := C.returned_gbytes r in
      match err with
      | Some _ => ret ([], handleGError err)
      | None => let* data := getGBytes ret_ in ret (data, None)
      end
  end.

Definition SetupPeerConnection (self : t) (opts : option PeerOptions.t)
  : M (option error) :=
  match opts with
  | None => panic NilPointerDereference
  | Some po =>
      let err :=
        C.frida_session_setup_peer_connection_sync
          (s self) (PeerOptions.opts po) in
      ret (handleGError err)
  end.

Definition JoinPortal (self : t) (address : string)
           (opts : option PortalOptions.t)
  : M (option PortalMembership.t * option error) :=
  let addrC := C.CString address in
  match opts with
  | None => panic NilPointerDereference
  | Some po =>
      let '(mem, err) :=
        C.frida_session_join_portal_sync
          (s self) addrC (PortalOptions.opts po) in
      ret (Some {| PortalMembership.mem := mem |}, handleGError err)
  end.

End Methods.

End Session.

(** ** DetachCtx: the goroutine, the channels and the select *)

(** Modelled from the spec: the [Cancellable] type is not among the
    sources.  "States: active -> cancelled (one-way) or active ->
    released": a token is created holding one reference, [Cancel] sets
    its flag, [Unref] gives the reference up. *)
Module Cancellable.
Record t : Type := { cancelled : bool; refs : nat }.

Definition NewCancellable : t := {| cancelled := false; refs := 1 |}.
Definition Cancel (c : t) : t := {| cancelled := true; refs := refs c |}.
Definition Unref (c : t) : t :=
  {| cancelled := cancelled c; refs := pred (refs c) |}.
Definition released (c : t) : bool := Nat.eqb (refs c) 0.
End Cancellable.

Module DetachCtx.

(** Where the goroutine started by [DetachCtx] stands: inside
    [s.Detach(WithCancel(c))], blocked on its [<-done], or returned. *)
Inductive worker : Type := Detaching | ReceivingDone | Exited.

(** Where [DetachCtx] itself stands: in its [select], or returned. *)
Inductive caller : Type := Selecting | Returned (err : option error).

Record state : Type := {
  done : list unit;          (* buffer of [make(chan map[string]any, 1)] *)
  errC : list error;         (* buffer of [make(chan error, 1)] *)
  ctx_done : bool;           (* [ctx.Done()] is closed *)
  c : Cancellable.t;
  goroutine : worker;
  main : caller
}.

Inductive select_case : Type := CaseCtxDone | CaseDone | CaseErrC.

(** What the scheduler and the environment decide. *)
Inductive event : Type :=
| CtxDone
| DetachReturns (gErr : option C.GError)
| ReceiveDone
| Select (k : select_case).

(** The state right after [go func() { ... }()]. *)
Definition start : state :=
  {| done := []; errC := []; ctx_done := false;
     c := Cancellable.NewCancellable;
     goroutine := Detaching; main := Selecting |}.

Definition step (e : event) (st : state) : option state :=
  match e with
  | CtxDone =>
      Some {| done := done st; errC := errC st; ctx_done := true;
              c := c st; goroutine := goroutine st; main := main st |}
  | DetachReturns gErr =>
      match goroutine st with
      | Detaching =>
          match handleGError gErr with
          | Some err =>
              (* errC <- err; return -- the only send on a channel of
           capacity 1, so it finds room *)
              if (length (errC st) <? 1)%nat
              then Some {| done := done st; errC := errC st ++ [err];
                           ctx_done := ctx_done st; c := c st;
                           goroutine := Exited; main := main st |}
              else None
          | None =>
              (* <-done *)
              Some {| done := done st; errC := errC st;
                      ctx_done := ctx_done st; c := c st;
                      goroutine := ReceivingDone; main := main st |}
          end
      | _ => None
      end
  | ReceiveDone =>
      match goroutine st, done st with
      | ReceivingDone, _ :: rest =>
          Some {| done := rest; errC := errC st; ctx_done := ctx_done st;
                  c := c st; goroutine := Exited; main := main st |}
      | _, _ => None
      end
  | Select k =>
      match main st with
      | Selecting =>
          match k with
          | CaseCtxDone =>
              if ctx_done st
              then Some {| done := done st; errC := errC st;
                           ctx_done := ctx_done st;
                           c := Cancellable.Cancel (c st);
                           goroutine := goroutine st;
                           main := Returned (Some ErrContextCancelled) |}
              else None
          | CaseDone =>
              match done st with
              | _ :: rest =>
                  Some {| done := rest; errC := errC st;
                          ctx_done := ctx_done st;
                          c := Cancellable.Unref (c st);
                          goroutine := goroutine st;
                          main := Returned None |}
              | [] => None
              end
          | CaseErrC =>
              match errC st with
              | err :: rest =>
                  Some {| done := done st; errC := rest;
                          ctx_done := ctx_done st;
                          c := Cancellable.Unref (c st);
                          goroutine := goroutine st;
                          main := Returned (Some err) |}
              | [] => None
              end
          end
      | Returned _ => None
      end
  end.

Fixpoint run (evs : list event) (st : state) : option state :=
  match evs with
  | [] => Some st
  | e :: rest =>
      match step e st with
      | Some st' => run rest st'
      | None => None
      end
  end.

End DetachCtx.

(** ** Test doubles and invariants used by the proofs *)

(** An engine that accepts every call. *)
Definition accepting_engine : C.Engine :=
  {| C.frida_session_create_script_sync := fun _ _ _ => (Some 1, None);
     C.frida_session_create_script_from_bytes_sync :=
       fun _ _ _ => (Some 1, None);
     C.frida_session_compile_script_sync :=
       fun _ _ _ => (Some [x2a%byte], None);
     C.frida_session_snapshot_script_sync :=
       fun _ _ _ => (Some [x2a%byte], None);
     C.frida_session_setup_peer_connection_sync := fun _ _ => None;
     C.frida_session_join_portal_sync := fun _ _ _ => (Some 1, None) |}.

(** An engine that rejects every call; for the calls that read script
    options the error message echoes the name it was handed. *)
Definition rejecting_engine : C.Engine :=
  let echo (v : C.ScriptOptionsView) :=
    Some {| C.code := 1%Z; C.message := C.GoString (C.view_name v) |} in
  let refuse := Some {| C.code := 1%Z; C.message := "refused" |} in
  {| C.frida_session_create_script_sync := fun _ _ v => (None, echo v);
     C.frida_session_create_script_from_bytes_sync :=
       fun _ _ v => (None, echo v);
     C.frida_session_compile_script_sync := fun _ _ v => (None, echo v);
     C.frida_session_snapshot_script_sync := fun _ _ _ => (None, refuse);
     C.frida_session_setup_peer_connection_sync := fun _ _ => refuse;
     C.frida_session_join_portal_sync := fun _ _ _ => (None, refuse) |}.

Definition a_session : Session.t := {| Session.s := 7 |}.

(** What holds of every state [DetachCtx] can reach: nothing is ever sent
    on [done], [errC] only carries wrapped engine errors, and the token
    is exactly as the caller's progress left it. *)
Definition DetachCtx_inv (st : DetachCtx.state) : Prop :=
  DetachCtx.done st = [] /\
  Forall (fun err => exists g, err = FError g) (DetachCtx.errC st) /\
  match DetachCtx.main st with
  | DetachCtx.Selecting => DetachCtx.c st = Cancellable.NewCancellable
  | DetachCtx.Returned (Some ErrContextCancelled) =>
      DetachCtx.c st = Cancellable.Cancel Cancellable.NewCancellable /\
      DetachCtx.ctx_done st = true
  | DetachCtx.Returned (Some (FError _)) =>
      DetachCtx.c st = Cancellable.Unref Cancellable.NewCancellable
  | DetachCtx.Returned None => False
  end /\
  match DetachCtx.goroutine st with
  | DetachCtx.Exited => True
  | _ => DetachCtx.errC st = [] /\
         forall g, DetachCtx.main st <> DetachCtx.Returned (Some (FError g))
  end.

(** A script options wrapper a caller may hand to a session: its native
    object is alive and so is the snapshot blob it points to, if any. *)
Definition options_valid (o : ScriptOptions.t) (p : Process) : bool :=
  match script_options p !! ScriptOptions.opts o with
  | Some (Some x) =>
      match priv_snapshot x with
      | None => true
      | Some a =>
          match gbytes p !! a with
          | Some (Some _) => true
          | _ => false
          end
      end
  | _ => false
  end.

(** A process holding one script options object, at address 0, as
    [NewScriptOptions("")] leaves it: its name is the empty string. *)
Definition unnamed_process : Process :=
  {| script_options :=
       [Some {| ref_count := 1; priv_name := Some "";
                priv_snapshot := None;
                priv_snapshot_transport := 0%Z;
                priv_runtime := 0%Z |}];
     gbytes := []; finalizers := [] |}.

Definition unnamed_options : ScriptOptions.t := {| ScriptOptions.opts := 0 |}.

(** The two shapes a (value, error) result of a session method takes,
    given the engine call it makes.  A method returning a handle always
    returns a non-nil wrapper around what the engine returned, paired
    with the wrapped engine error; a method returning bytes returns the
    nil slice and the wrapped error when the engine set one, and the
    engine's bytes and the nil error otherwise. *)
Definition returns_wrapper {H W : Type} (mk : option H -> W)
           (call : C.ScriptOptionsView -> option H * option C.GError)
           (res : outcome Process (option W * option error)) : Prop :=
  exists view p',
    res = Ok (Some (mk (fst (call view))), handleGError (snd (call view))) p'.

Definition returns_bytes
           (call : C.ScriptOptionsView -> option (list byte) * option C.GError)
           (res : outcome Process (list byte * option error)) : Prop :=
  exists view p',
    res = Ok (match snd (call view), fst (call view) with
              | None, Some data => data
              | _, _ => []
              end, handleGError (snd (call view))) p'.

(** The reading of "exactly one of (value, nil error) or (zero value,
    non-nil error)" for a pointer result. *)
Definition exactly_one_populated {W : Type} (r : option W * option error)
  : bool :=
  match r with
  | (Some _, None) => true
  | (None, Some _) => true
  | _ => false
  end.

(** Go strings may hold NUL bytes; C strings end at the first one. *)
Fixpoint nul_free (s : string) : bool :=
  match s with
  | EmptyString => true
  | String c rest => negb (Ascii.eqb c Ascii.zero) && nul_free rest
  end.

(** The three-byte Go string "a\x00b". *)
Definition name_with_nul : string :=
  String "a"%char (String Ascii.zero (String "b"%char EmptyString)).

(** A process in which options named "frida-go" (address 0) have been
    given the one-byte snapshot 0x2a and the finalizer of the Go-side
    blob pointer has already run: the options hold the only reference. *)
Definition warm_process : Process :=
  {| script_options :=
       [Some {| ref_count := 1; priv_name := Some "frida-go";
                priv_snapshot := Some 0;
                priv_snapshot_transport := 0%Z;
                priv_runtime := 0%Z |}];
     gbytes := [Some {| g_ref_count := 1; g_data := [x2a%byte] |}];
     finalizers := [] |}.

Definition warm_options : ScriptOptions.t := {| ScriptOptions.opts := 0 |}.

(** ** snapshot_options.go: the constructor and the getters *)

(** The private fields of the native [FridaSnapshotOptions] object. *)
Record FridaSnapshotOptionsObj : Type := {
  priv_warmup_script : option string;
  priv_warmup_runtime : Z
}.

(** The snapshot options objects of the process, by address.  The
    wrappers of this file never release one. *)
Abbreviation SnapshotHeap := (list FridaSnapshotOptionsObj).

(** cgo represents the C enumeration [FridaScriptRuntime] as a 32-bit
    unsigned integer: converting a Go [int] to it keeps the low 32 bits,
    and converting back to [int] keeps the value. *)
Definition FridaScriptRuntime_of_int (rt : Z) : Z := (rt mod 2 ^ 32)%Z.

Definition snapshot_options_update (o : nat)
           (f : FridaSnapshotOptionsObj -> FridaSnapshotOptionsObj)
           (h : SnapshotHeap) : outcome SnapshotHeap unit :=
  match h !! o with
  | Some x => Ok tt (<[o := f x]> h)
  | None => Fault InvalidReference
  end.

Definition frida_snapshot_options_new (h : SnapshotHeap)
  : outcome SnapshotHeap nat :=
  Ok (length h)
     (h ++ [{| priv_warmup_script := None; priv_warmup_runtime := 0%Z |}]).

Definition frida_snapshot_options_set_warmup_script (o : nat) (w : string)
  : SnapshotHeap -> outcome SnapshotHeap unit :=
  snapshot_options_update o
    (fun x => {| priv_warmup_script := Some w;
                 priv_warmup_runtime := priv_warmup_runtime x |}).

Definition frida_snapshot_options_set_runtime (o : nat) (rt : Z)
  : SnapshotHeap -> outcome SnapshotHeap unit :=
  snapshot_options_update o
    (fun x => {| priv_warmup_script := priv_warmup_script x;
                 priv_warmup_runtime := rt |}).

Definition frida_snapshot_options_get_warmup_script (o : nat)
           (h : SnapshotHeap) : outcome SnapshotHeap (option string) :=
  match h !! o with
  | Some x => Ok (priv_warmup_script x) h
  | None => Fault InvalidReference
  end.

Definition frida_snapshot_options_get_runtime (o : nat) (h : SnapshotHeap)
  : outcome SnapshotHeap Z :=
  match h !! o with
  | Some x => Ok (priv_warmup_runtime x) h
  | None => Fault InvalidReference
  end.

Definition NewSnapshotOptions (warmupScript : string) (rt : ScriptRuntime)
           (h : SnapshotHeap) : outcome SnapshotHeap SnapshotOptions.t :=
  match frida_snapshot_options_new h with
  | Ok opts h0 =>
      let warmupScriptC := C.CString warmupScript in
      match frida_snapshot_options_set_warmup_script opts warmupScriptC h0 with
      | Ok _ h1 =>
          match frida_snapshot_options_set_runtime
                  opts (FridaScriptRuntime_of_int rt) h1 with
          | Ok _ h2 => Ok {| SnapshotOptions.opts := opts |} h2
          | Fault e => Fault e
          end
      | Fault e => Fault e
      end
  | Fault e => Fault e
  end.

Definition GetWarmupScript (s : SnapshotOptions.t) (h : SnapshotHeap)
  : outcome SnapshotHeap string :=
  match frida_snapshot_options_get_warmup_script (SnapshotOptions.opts s) h with
  | Ok p h' => Ok (C.GoString p) h'
  | Fault e => Fault e
  end.

Definition GetRuntime (s : SnapshotOptions.t) (h : SnapshotHeap)
  : outcome SnapshotHeap ScriptRuntime :=
  frida_snapshot_options_get_runtime (SnapshotOptions.opts s) h.

(** ** Reference bookkeeping used in statements *)

(** A blob after one of its references has been dropped: freed when that
    was the last one. *)
Definition drop_ref (b : GBytes) : option GBytes :=
  if (g_ref_count b <=? 1)%nat then None
  else Some {| g_ref_count := pred (g_ref_count b); g_data := g_data b |}.

(** The blobs of a process after the references an options object holds
    (to its snapshot, if it has one) have been dropped. *)
Definition release_snapshot (x : FridaScriptOptions)
           (g : list (option GBytes)) : list (option GBytes) :=
  match priv_snapshot x with
  | Some a =>
      match g !! a with
      | Some (Some b) => <[a := drop_ref b]> g
      | _ => g
      end
  | None => g
  end.

(** * Properties *)

(** ** DetachCtx *)

Lemma DetachCtx_inv_start : DetachCtx_inv DetachCtx.start.
Proof.
  unfold DetachCtx_inv; simpl.
  repeat split; auto; discriminate.
Qed.

Lemma DetachCtx_inv_step e st st' :
  DetachCtx_inv st -> DetachCtx.step e st = Some st' -> DetachCtx_inv st'.
Proof.
  intros (Hdone & Herr & Hmain & Hgo) Hstep.
  destruct st as [dn ec cd tok go mn]; simpl in *; subst dn.
  destruct e as [ | gErr | | k]; simpl in Hstep.
  - inversion Hstep; subst; clear Hstep.
    unfold DetachCtx_inv; simpl. repeat split; auto.
    destruct mn as [|[[g|]|]]; auto. now destruct Hmain.
  - destruct go; try discriminate.
    destruct Hgo as [-> Hne].
    destruct gErr as [g|]; simpl in Hstep; inversion Hstep; subst; clear Hstep;
      unfold DetachCtx_inv; simpl; repeat split; auto.
    constructor; eauto.
  - destruct go; discriminate.
  - destruct mn; try discriminate.
    destruct k.
    + destruct cd; try discriminate.
      inversion Hstep; subst; clear Hstep.
      unfold DetachCtx_inv; simpl; repeat split; auto.
      destruct go; auto; destruct Hgo; split; auto; discriminate.
    + discriminate.
    + destruct ec as [|err rest]; try discriminate.
      inversion Hstep; subst; clear Hstep.
      inversion Herr as [|? ? [g ->] Hrest]; subst.
      unfold DetachCtx_inv; simpl; repeat split; auto.
      destruct go; auto; destruct Hgo; discriminate.
Qed.

Lemma DetachCtx_inv_run evs : forall st st',
  DetachCtx_inv st -> DetachCtx.run evs st = Some st' -> DetachCtx_inv st'.
Proof.
  induction evs as [|e evs IH]; simpl; intros st st' Hinv Hrun.
  - now inversion Hrun; subst.
  - destruct (DetachCtx.step e st) as [st1|] eqn:Hstep; try discriminate.
    eapply IH; [|exact Hrun].
    eapply DetachCtx_inv_step; eauto.
Qed.

(** Once [DetachCtx] has returned, nothing touches its result or its
    token any more. *)
Lemma DetachCtx_returned_frozen evs : forall st st' r,
  DetachCtx.main st = DetachCtx.Returned r ->
  DetachCtx.run evs st = Some st' ->
  DetachCtx.main st' = DetachCtx.Returned r /\ DetachCtx.c st' = DetachCtx.c st.
Proof.
  induction evs as [|e evs IH]; simpl; intros st st' r Hmain Hrun.
  - inversion Hrun; subst; auto.
  - destruct (DetachCtx.step e st) as [st1|] eqn:Hstep; try discriminate.
    assert (DetachCtx.main st1 = DetachCtx.Returned r /\
            DetachCtx.c st1 = DetachCtx.c st) as [Hm Hc].
    { destruct st as [dn ec cd tok go mn]; simpl in *; subst mn.
      destruct e as [ | gErr | | k]; simpl in Hstep.
      - inversion Hstep; subst; auto.
      - destruct go; try discriminate.
        destruct (handleGError gErr); [destruct (length ec <? 1)%nat|];
          inversion Hstep; subst; auto.
      - destruct go; try discriminate. destruct dn; try discriminate.
        inversion Hstep; subst; auto.
      - discriminate. }
    destruct (IH st1 st' r Hm Hrun) as [Hm' Hc'].
    split; congruence.
Qed.

(** C1: when the underlying Detach succeeds, the goroutine waits on
    [<-done] where a send was meant, so nothing ever arrives on [done]:
    [DetachCtx] never returns nil.  With the goroutine parked there the
    token is still unreleased, the caller cannot leave its [select] before
    the context is done (no event but the context's is enabled), and the
    only result it can still produce is [ErrContextCancelled]. *)
Theorem DetachCtx_success_is_never_reported :
  forall evs st,
    DetachCtx.run evs DetachCtx.start = Some st ->
    DetachCtx.main st <> DetachCtx.Returned None /\
    (DetachCtx.goroutine st = DetachCtx.ReceivingDone ->
       Cancellable.released (DetachCtx.c st) = false /\
       (DetachCtx.ctx_done st = false ->
          DetachCtx.main st = DetachCtx.Selecting /\
          forall e, e <> DetachCtx.CtxDone -> DetachCtx.step e st = None) /\
       (DetachCtx.main st = DetachCtx.Selecting \/
        DetachCtx.main st = DetachCtx.Returned (Some ErrContextCancelled))).
Proof.
  intros evs st Hrun.
  pose proof (DetachCtx_inv_run evs _ _ DetachCtx_inv_start Hrun)
    as (Hdone & Herr & Hmain & Hgo).
  split.
  { intros Hnil. now rewrite Hnil in Hmain. }
  intros Hrecv. rewrite Hrecv in Hgo. destruct Hgo as [HerrC Hne].
  destruct st as [dn ec cd tok go mn]; simpl in *; subst.
  destruct mn as [|[[g|]|]]; simpl in *.
  - subst tok. repeat split; auto.
    intros e He. destruct e as [ | gErr | | [ | | ]]; simpl; auto.
    + congruence.
    + now rewrite H.
  - exfalso. now apply (Hne g).
  - destruct Hmain as [-> Hcd]. repeat split; auto; congruence.
  - contradiction.
Qed.

Lemma DetachCtx_success_is_never_reported_witness :
  exists st,
    DetachCtx.run [DetachCtx.DetachReturns None] DetachCtx.start = Some st /\
    DetachCtx.main st <> DetachCtx.Returned None /\
    Cancellable.released (DetachCtx.c st) = false /\
    forall e, e <> DetachCtx.CtxDone -> DetachCtx.step e st = None.
Proof.
  eexists. split; [reflexivity|].
  destruct (DetachCtx_success_is_never_reported
              [DetachCtx.DetachReturns None] _ eq_refl) as [Hnil Hparked].
  destruct (Hparked eq_refl) as (Hrel & Hblocked & _).
  destruct (Hblocked eq_refl) as [_ Hstuck].
  auto.
Defined.

(** C3: when the context is done while the underlying Detach is still in
    flight, the only enabled case of the [select] is the context's; taking
    it cancels the token and returns [ErrContextCancelled], and the token
    ends cancelled.  That branch has no [c.Unref()] (the two sibling
    branches have one): the token still holds its reference, and no later
    event releases it. *)
Theorem DetachCtx_deadline_cancels_without_release :
  forall evs st,
    DetachCtx.run evs DetachCtx.start = Some st ->
    DetachCtx.main st = DetachCtx.Selecting ->
    DetachCtx.goroutine st = DetachCtx.Detaching ->
    DetachCtx.ctx_done st = true ->
    (forall k, k <> DetachCtx.CaseCtxDone ->
               DetachCtx.step (DetachCtx.Select k) st = None) /\
    exists st',
      DetachCtx.step (DetachCtx.Select DetachCtx.CaseCtxDone) st = Some st' /\
      DetachCtx.main st' = DetachCtx.Returned (Some ErrContextCancelled) /\
      Cancellable.cancelled (DetachCtx.c st') = true /\
      Cancellable.released (DetachCtx.c st') = false /\
      forall evs' st'',
        DetachCtx.run evs' st' = Some st'' ->
        DetachCtx.main st'' = DetachCtx.Returned (Some ErrContextCancelled) /\
        Cancellable.cancelled (DetachCtx.c st'') = true /\
        Cancellable.released (DetachCtx.c st'') = false.
Proof.
  intros evs st Hrun Hmain Hgo Hctx.
  pose proof (DetachCtx_inv_run evs _ _ DetachCtx_inv_start Hrun)
    as (Hdone & _ & Htok & Hworker).
  rewrite Hmain in Htok. rewrite Hgo in Hworker. destruct Hworker as [HerrC _].
  destruct st as [dn ec cd tok go mn]; simpl in *; subst.
  split.
  - intros [ | | ] Hk; simpl; auto. congruence.
  - eexists. split; [reflexivity|]. simpl.
    repeat split; auto.
    all: eapply DetachCtx_returned_frozen in H as [Hm Hc]; [|reflexivity];
      simpl in Hc; try rewrite Hc; auto.
Qed.

Lemma DetachCtx_deadline_cancels_without_release_witness :
  exists st',
    DetachCtx.step (DetachCtx.Select DetachCtx.CaseCtxDone)
      {| DetachCtx.done := []; DetachCtx.errC := [];
         DetachCtx.ctx_done := true;
         DetachCtx.c := Cancellable.NewCancellable;
         DetachCtx.goroutine := DetachCtx.Detaching;
         DetachCtx.main := DetachCtx.Selecting |} = Some st' /\
    Cancellable.cancelled (DetachCtx.c st') = true /\
    Cancellable.released (DetachCtx.c st') = false.
Proof.
  destruct (DetachCtx_deadline_cancels_without_release
              [DetachCtx.CtxDone] _ eq_refl eq_refl eq_refl eq_refl)
    as [_ (st' & Hstep & _ & Hc & Hr & _)].
  exists st'. auto.
Defined.

(** ** Reading the monad *)

Lemma bind_ok {A B} (m : M A) (f : A -> M B) p a p' :
  m p = Ok a p' -> bind m f p = f a p'.
Proof. unfold bind. now intros ->. Qed.

Lemma bind_fault {A B} (m : M A) (f : A -> M B) p e :
  m p = Fault e -> bind m f p = Fault e.
Proof. unfold bind. now intros ->. Qed.

Lemma script_options_deref_ok o x p :
  script_options p !! o = Some (Some x) -> C.script_options_deref o p = Ok x p.
Proof. unfold C.script_options_deref. now intros ->. Qed.

Lemma gbytes_deref_ok a b p :
  gbytes p !! a = Some (Some b) -> C.gbytes_deref a p = Ok b p.
Proof. unfold C.gbytes_deref. now intros ->. Qed.

Lemma lookup_snoc {A} (l : list A) (x : A) : (l ++ [x]) !! length l = Some x.
Proof. induction l; simpl; auto. Qed.

Lemma insert_snoc {A} (l : list A) (x y : A) :
  <[length l := y]> (l ++ [x]) = l ++ [y].
Proof. induction l; simpl; auto. now f_equal. Qed.

(** [NewScriptOptions] never fails: it allocates a fresh native object
    holding one reference and stores the marshalled name in it. *)
Lemma NewScriptOptions_eq name p :
  NewScriptOptions name p =
  Ok {| ScriptOptions.opts := length (script_options p) |}
     {| script_options :=
          script_options p ++
          [Some {| ref_count := 1; priv_name := Some (C.CString name);
                   priv_snapshot := None;
                   priv_snapshot_transport := 0%Z;
                   priv_runtime := 0%Z |}];
        gbytes := gbytes p;
        finalizers := finalizers p |}.
Proof.
  unfold NewScriptOptions, C.frida_script_options_new,
    C.frida_script_options_set_name, C.script_options_deref,
    C.script_options_store, bind, ret; simpl.
  rewrite lookup_snoc; simpl. now rewrite insert_snoc.
Qed.

Lemma options_valid_inv o p :
  options_valid o p = true ->
  exists x, script_options p !! ScriptOptions.opts o = Some (Some x) /\
            match priv_snapshot x with
            | None => True
            | Some a => exists b, gbytes p !! a = Some (Some b)
            end.
Proof.
  unfold options_valid.
  destruct (script_options p !! ScriptOptions.opts o) as [[x|]|]; try discriminate.
  intros H. exists x. split; auto.
  destruct (priv_snapshot x) as [a|]; auto.
  destruct (gbytes p !! a) as [[b|]|]; try discriminate. eauto.
Qed.

Lemma frida_unref_ok o x p :
  script_options p !! o = Some (Some x) ->
  match priv_snapshot x with
  | None => True
  | Some a => exists b, gbytes p !! a = Some (Some b)
  end ->
  exists p', C.frida_unref o p = Ok tt p'.
Proof.
  intros Ho Hs. unfold C.frida_unref.
  rewrite (bind_ok _ _ _ _ _ (script_options_deref_ok _ _ _ Ho)).
  destruct (ref_count x <=? 1)%nat.
  - destruct (priv_snapshot x) as [a|].
    + destruct Hs as [b Hb]. unfold C.g_bytes_unref.
      unfold bind at 1.
      rewrite (bind_ok _ _ _ _ _ (gbytes_deref_ok _ _ _ Hb)).
      destruct (g_ref_count b <=? 1)%nat; simpl; eauto.
    + simpl. eauto.
  - simpl. eauto.
Qed.

Lemma Name_ok o x p :
  script_options p !! ScriptOptions.opts o = Some (Some x) ->
  ScriptOptions.Name o p = Ok (C.GoString (priv_name x)) p.
Proof.
  intros Ho.
  unfold ScriptOptions.Name, ScriptOptions.GetName,
    C.frida_script_options_get_name.
  unfold bind at 1.
  now rewrite (bind_ok _ _ _ _ _ (script_options_deref_ok _ _ _ Ho)).
Qed.

Lemma SetName_ok o x p name :
  script_options p !! ScriptOptions.opts o = Some (Some x) ->
  ScriptOptions.SetName o name p =
  Ok tt {| script_options :=
             <[ScriptOptions.opts o :=
                 Some {| ref_count := ref_count x;
                         priv_name := Some (C.CString name);
                         priv_snapshot := priv_snapshot x;
                         priv_snapshot_transport := priv_snapshot_transport x;
                         priv_runtime := priv_runtime x |}]>
               (script_options p);
           gbytes := gbytes p;
           finalizers := finalizers p |}.
Proof.
  intros Ho.
  unfold ScriptOptions.SetName, C.frida_script_options_set_name.
  now rewrite (bind_ok _ _ _ _ _ (script_options_deref_ok _ _ _ Ho)).
Qed.

Lemma script_options_read_ok o x p :
  script_options p !! o = Some (Some x) ->
  match priv_snapshot x with
  | None => True
  | Some a => exists b, gbytes p !! a = Some (Some b)
  end ->
  exists view,
    C.script_options_read o p = Ok view p /\
    C.view_name view = priv_name x /\
    C.view_snapshot_transport view = priv_snapshot_transport x /\
    C.view_runtime view = priv_runtime x /\
    match priv_snapshot x with
    | None => C.view_snapshot view = None
    | Some a => exists b, gbytes p !! a = Some (Some b) /\
                          C.view_snapshot view = Some (g_data b)
    end.
Proof.
  intros Ho Hs. unfold C.script_options_read.
  rewrite (bind_ok _ _ _ _ _ (script_options_deref_ok _ _ _ Ho)).
  destruct (priv_snapshot x) as [a|].
  - destruct Hs as [b Hb].
    unfold bind at 1.
    rewrite (bind_ok _ _ _ _ _ (gbytes_deref_ok _ _ _ Hb)).
    eexists. split; [reflexivity|]. simpl. eauto 10.
  - eexists. split; [reflexivity|]. simpl. auto.
Qed.

(** What [options_or_default] hands on: the caller's wrapper, or a fresh
    one named "frida-go". *)
Lemma options_or_default_nil p :
  Session.options_or_default None p =
  Ok {| ScriptOptions.opts := length (script_options p) |}
     {| script_options :=
          script_options p ++
          [Some {| ref_count := 1; priv_name := Some "frida-go";
                   priv_snapshot := None;
                   priv_snapshot_transport := 0%Z;
                   priv_runtime := 0%Z |}];
        gbytes := gbytes p;
        finalizers := finalizers p |}.
Proof. unfold Session.options_or_default. now rewrite NewScriptOptions_eq. Qed.

Lemma CreateScriptWithOptions_prepared `{E : C.Engine} self script opts o x p0 p :
  Session.options_or_default opts p0 = Ok o p ->
  script_options p !! ScriptOptions.opts o = Some (Some x) ->
  match priv_snapshot x with
  | None => True
  | Some a => exists b, gbytes p !! a = Some (Some b)
  end ->
  exists view p',
    C.view_name view =
      Some (if String.eqb (C.GoString (priv_name x)) ""
            then "frida-go" else C.GoString (priv_name x)) /\
    C.view_snapshot_transport view = priv_snapshot_transport x /\
    C.view_runtime view = priv_runtime x /\
    match priv_snapshot x with
    | None => C.view_snapshot view = None
    | Some a => exists b, gbytes p !! a = Some (Some b) /\
                          C.view_snapshot view = Some (g_data b)
    end /\
    Session.CreateScriptWithOptions self script opts p0 =
      Ok (Some {| Script.sc :=
                    fst (C.frida_session_create_script_sync
                           (Session.s self) (C.CString script) view) |},
          handleGError
            (snd (C.frida_session_create_script_sync
                    (Session.s self) (C.CString script) view))) p'.
Proof.
  intros Hprep Ho Hs.
  unfold Session.CreateScriptWithOptions.
  rewrite (bind_ok _ _ _ _ _ Hprep).
  rewrite (bind_ok _ _ _ _ _ (Name_ok _ _ _ Ho)).
  destruct (String.eqb (C.GoString (priv_name x)) "") eqn:Hname.
  - rewrite (bind_ok _ _ _ _ _ (SetName_ok _ _ _ "frida-go" Ho)).
    set (x1 := {| ref_count := ref_count x;
                  priv_name := Some (C.CString "frida-go");
                  priv_snapshot := priv_snapshot x;
                  priv_snapshot_transport := priv_snapshot_transport x;
                  priv_runtime := priv_runtime x |}).
    set (p1 := {| script_options :=
                    <[ScriptOptions.opts o := Some x1]> (script_options p);
                  gbytes := gbytes p; finalizers := finalizers p |}).
    assert (Ho1 : script_options p1 !! ScriptOptions.opts o = Some (Some x1)).
    { simpl. apply list_lookup_insert_eq. eapply lookup_lt_Some; eauto. }
    assert (Hs1 : match priv_snapshot x1 with
                  | None => True
                  | Some a => exists b, gbytes p1 !! a = Some (Some b)
                  end) by exact Hs.
    destruct (script_options_read_ok _ _ _ Ho1 Hs1)
      as (view & Hread & Hn & Ht & Hr & Hsn).
    destruct (frida_unref_ok _ _ _ Ho1 Hs1) as [p' Hp'].
    exists view, p'.
    rewrite (bind_ok _ _ _ _ _ Hread).
    destruct (C.frida_session_create_script_sync _ _ view) as [cs err].
    unfold clean. rewrite (bind_ok _ _ _ _ _ Hp').
    repeat split; auto.
  - rewrite (bind_ok _ _ _ _ _ (eq_refl : ret tt p = Ok tt p)).
    destruct (script_options_read_ok _ _ _ Ho Hs)
      as (view & Hread & Hn & Ht & Hr & Hsn).
    destruct (frida_unref_ok _ _ _ Ho Hs) as [p' Hp'].
    exists view, p'.
    rewrite (bind_ok _ _ _ _ _ Hread).
    destruct (C.frida_session_create_script_sync _ _ view) as [cs err].
    unfold clean. rewrite (bind_ok _ _ _ _ _ Hp').
    repeat split; auto.
    rewrite Hn. destruct (priv_name x) as [n|]; simpl in *; auto.
    discriminate.
Qed.

(** ** Session: script creation *)

(** C4: [CreateScriptWithOptions] builds a "frida-go" options object for
    a nil argument and renames options whose name reads back empty to
    "frida-go" before the engine call; the name the engine is handed is
    never empty, and the call returns the engine's answer. *)
Theorem CreateScriptWithOptions_name_never_empty `{E : C.Engine} :
  forall self script opts p,
    (forall o, opts = Some o -> options_valid o p = true) ->
    exists view p',
      Session.CreateScriptWithOptions self script opts p =
        Ok (Some {| Script.sc :=
                      fst (C.frida_session_create_script_sync
                             (Session.s self) (C.CString script) view) |},
            handleGError
              (snd (C.frida_session_create_script_sync
                      (Session.s self) (C.CString script) view))) p' /\
      (exists n, C.view_name view = Some n /\ n <> "") /\
      (opts = None -> C.view_name view = Some "frida-go") /\
      (forall o x,
         opts = Some o ->
         script_options p !! ScriptOptions.opts o = Some (Some x) ->
         C.view_name view =
           Some (if String.eqb (C.GoString (priv_name x)) ""
                 then "frida-go" else C.GoString (priv_name x))).
Proof.
  intros self script [o|] p Hvalid.
  - destruct (options_valid_inv o p (Hvalid o eq_refl)) as (x & Ho & Hs).
    destruct (CreateScriptWithOptions_prepared self script (Some o) o x p p
                eq_refl Ho Hs) as (view & p' & Hn & _ & _ & _ & Heq).
    exists view, p'. split; [exact Heq|]. split; [|split].
    + eexists. split; [exact Hn|].
      destruct (String.eqb (C.GoString (priv_name x)) "") eqn:Hname.
      * discriminate.
      * now apply String.eqb_neq.
    + discriminate.
    + intros o' x' [= <-] Ho'. rewrite Ho in Ho'. now inversion Ho'; subst.
  - destruct (CreateScriptWithOptions_prepared self script None _ _ p _
                (options_or_default_nil p) (lookup_snoc _ _) I)
      as (view & p' & Hn & _ & _ & _ & Heq).
    simpl in Hn.
    exists view, p'. split; [exact Heq|]. split; [|split].
    + eexists. split; [exact Hn|]. discriminate.
    + now intros _.
    + discriminate.
Qed.

Lemma CreateScriptWithOptions_name_never_empty_witness :
  options_valid unnamed_options unnamed_process = true /\
  exists view p',
    Session.CreateScriptWithOptions (E := rejecting_engine)
      a_session "send(1)" (Some unnamed_options) unnamed_process =
      Ok (Some {| Script.sc := None |},
          Some (FError {| C.code := 1%Z;
                          C.message := C.GoString (C.view_name view) |})) p' /\
    C.view_name view = Some "frida-go".
Proof.
  split; [reflexivity|].
  destruct (CreateScriptWithOptions_name_never_empty (E := rejecting_engine)
              a_session "send(1)" (Some unnamed_options) unnamed_process)
    as (view & p' & Heq & _ & _ & Hname).
  { intros o [= <-]. reflexivity. }
  exists view, p'. split; [exact Heq|].
  exact (Hname _ _ eq_refl eq_refl).
Defined.

(** ** ScriptOptions: accessors *)

Lemma GetName_ok o x p :
  script_options p !! ScriptOptions.opts o = Some (Some x) ->
  ScriptOptions.GetName o p = Ok (C.GoString (priv_name x)) p.
Proof. exact (Name_ok o x p). Qed.

(** [SetSnapshot] on valid options: the new blob sits at the next free
    address with two references (the Go side's, which the finalizer will
    drop, and the options' own), and the options point at it. *)
Lemma SetSnapshot_ok o x p value :
  script_options p !! ScriptOptions.opts o = Some (Some x) ->
  match priv_snapshot x with
  | None => True
  | Some a => exists b, gbytes p !! a = Some (Some b)
  end ->
  exists p',
    ScriptOptions.SetSnapshot o value p = Ok tt p' /\
    script_options p' =
      <[ScriptOptions.opts o :=
          Some {| ref_count := ref_count x; priv_name := priv_name x;
                  priv_snapshot := Some (length (gbytes p));
                  priv_snapshot_transport := priv_snapshot_transport x;
                  priv_runtime := priv_runtime x |}]> (script_options p) /\
    gbytes p' !! length (gbytes p) =
      Some (Some {| g_ref_count := 2; g_data := value |}) /\
    finalizers p' = length (gbytes p) :: finalizers p.
Proof.
  intros Ho Hs.
  unfold ScriptOptions.SetSnapshot, goBytesToGBytes, C.g_bytes_new,
    runtime_SetFinalizer.
  unfold bind at 1. unfold bind at 1. simpl.
  unfold C.frida_script_options_set_snapshot.
  unfold bind at 1. unfold C.script_options_deref at 1. simpl. rewrite Ho.
  unfold C.g_bytes_ref. unfold bind at 1. unfold bind at 1.
  unfold C.gbytes_deref at 1. simpl. rewrite lookup_snoc. simpl.
  rewrite insert_snoc.
  destruct (priv_snapshot x) as [old|].
  - destruct Hs as [b Hb].
    assert (Hlt : old < length (gbytes p)) by (eapply lookup_lt_Some; eauto).
    unfold C.g_bytes_unref. unfold bind at 1. unfold bind at 1.
    unfold C.gbytes_deref at 1. simpl.
    rewrite lookup_app_l by exact Hlt. rewrite Hb.
    destruct (g_ref_count b <=? 1)%nat; simpl;
      (eexists; split; [reflexivity|]; simpl; repeat split; auto;
       rewrite list_lookup_insert_ne by lia; apply lookup_snoc).
  - simpl. eexists. split; [reflexivity|]. simpl. repeat split; auto.
    apply lookup_snoc.
Qed.

(** [GetSnapshot] copies the blob the options point at and then drops
    one reference of it, the getter having taken none: the options keep
    pointing at the blob. *)
Lemma GetSnapshot_ok o x a b p :
  script_options p !! ScriptOptions.opts o = Some (Some x) ->
  priv_snapshot x = Some a ->
  gbytes p !! a = Some (Some b) ->
  ScriptOptions.GetSnapshot o p =
  Ok (g_data b)
     {| script_options := script_options p;
        gbytes :=
          <[a := if (g_ref_count b <=? 1)%nat then None
                 else Some {| g_ref_count := pred (g_ref_count b);
                              g_data := g_data b |}]> (gbytes p);
        finalizers := finalizers p |}.
Proof.
  intros Ho Hsnap Hb.
  unfold ScriptOptions.GetSnapshot, C.frida_script_options_get_snapshot.
  unfold bind at 1. unfold bind at 1.
  rewrite (script_options_deref_ok _ _ _ Ho). unfold ret at 1.
  rewrite Hsnap. unfold getGBytes.
  unfold bind at 1. unfold bind at 1.
  rewrite (gbytes_deref_ok _ _ _ Hb). unfold ret at 1.
  unfold clean, C.g_bytes_unref.
  unfold bind at 1. unfold bind at 1.
  rewrite (gbytes_deref_ok _ _ _ Hb).
  now destruct (g_ref_count b <=? 1)%nat.
Qed.

(** Reading the snapshot of options whose blob has been freed is a use
    of an invalid reference. *)
Lemma GetSnapshot_dangling o x a p :
  script_options p !! ScriptOptions.opts o = Some (Some x) ->
  priv_snapshot x = Some a ->
  gbytes p !! a = Some None ->
  ScriptOptions.GetSnapshot o p = Fault InvalidReference.
Proof.
  intros Ho Hsnap Hb.
  unfold ScriptOptions.GetSnapshot, C.frida_script_options_get_snapshot.
  unfold bind at 1. unfold bind at 1.
  rewrite (script_options_deref_ok _ _ _ Ho). unfold ret at 1.
  rewrite Hsnap. unfold getGBytes.
  unfold bind at 1. unfold bind at 1.
  unfold C.gbytes_deref. now rewrite Hb.
Qed.

Lemma view_eta (v : C.ScriptOptionsView) n sn t r :
  C.view_name v = n -> C.view_snapshot v = sn ->
  C.view_snapshot_transport v = t -> C.view_runtime v = r ->
  v = {| C.view_name := n; C.view_snapshot := sn;
         C.view_snapshot_transport := t; C.view_runtime := r |}.
Proof. destruct v; simpl; intros; subst; reflexivity. Qed.

(** C7: [CreateScript] is [CreateScriptWithOptions] on a fresh options
    object named "frida-go": the two runs are equal, and what comes back
    is the engine's answer to the source text under those options. *)
Theorem CreateScript_uses_default_options `{E : C.Engine} :
  forall self script p,
    Session.CreateScript self script p =
      (let* opts := NewScriptOptions "frida-go" in
       Session.CreateScriptWithOptions self script (Some opts)) p /\
    exists p',
      let r := C.frida_session_create_script_sync
                 (Session.s self) (C.CString script)
                 {| C.view_name := Some "frida-go";
                    C.view_snapshot := None;
                    C.view_snapshot_transport := 0%Z;
                    C.view_runtime := 0%Z |} in
      Session.CreateScript self script p =
        Ok (Some {| Script.sc := fst r |}, handleGError (snd r)) p'.
Proof.
  intros self script p. split.
  - unfold Session.CreateScript, Session.CreateScriptWithOptions,
      Session.options_or_default.
    unfold bind at 1. unfold bind at 5.
    destruct (NewScriptOptions "frida-go" p); reflexivity.
  - unfold Session.CreateScript.
    destruct (CreateScriptWithOptions_prepared self script None _ _ p _
                (options_or_default_nil p) (lookup_snoc _ _) I)
      as (view & p' & Hn & Ht & Hr & Hs & Heq).
    simpl in Hn, Ht, Hr, Hs.
    rewrite (view_eta view _ _ _ _ Hn Hs Ht Hr) in Heq.
    exists p'. exact Heq.
Qed.

Lemma CreateScriptWithSnapshot_run `{E : C.Engine} self script snapshot p :
  exists p',
    let r := C.frida_session_create_script_sync
               (Session.s self) (C.CString script)
               {| C.view_name := Some "frida-go";
                  C.view_snapshot := Some snapshot;
                  C.view_snapshot_transport := 0%Z;
                  C.view_runtime := 0%Z |} in
    Session.CreateScriptWithSnapshot self script snapshot p =
      Ok (Some {| Script.sc := fst r |}, handleGError (snd r)) p'.
Proof.
  unfold Session.CreateScriptWithSnapshot.
  rewrite (bind_ok _ _ _ _ _ (NewScriptOptions_eq "frida-go" p)).
  match goal with
  | |- context [bind (ScriptOptions.SetSnapshot ?o _) _ ?p1] =>
      destruct (SetSnapshot_ok o _ p1 snapshot (lookup_snoc _ _) I)
        as (p2 & Hset & Hso & Hgb & Hfin)
  end.
  rewrite (bind_ok _ _ _ _ _ Hset).
  simpl in Hso, Hgb, Hfin. rewrite insert_snoc in Hso.
  match type of Hso with
  | _ = _ ++ [Some ?x2] =>
      assert (Ho2 : script_options p2 !!
                      ScriptOptions.opts
                        {| ScriptOptions.opts := length (script_options p) |}
                    = Some (Some x2))
        by (rewrite Hso; apply lookup_snoc);
      destruct (CreateScriptWithOptions_prepared self script
                  (Some {| ScriptOptions.opts := length (script_options p) |})
                  _ x2 p2 p2 eq_refl Ho2)
        as (view & p' & Hn & Ht & Hr & Hs & Heq)
  end.
  { simpl. eauto. }
  simpl in Hn, Ht, Hr, Hs.
  destruct Hs as (b & Hb & Hs). rewrite Hgb in Hb. inversion Hb; subst b.
  simpl in Hs.
  rewrite (view_eta view _ _ _ _ Hn Hs Ht Hr) in Heq.
  exists p'. exact Heq.
Qed.

(** C8: [CreateScriptWithSnapshot] is [CreateScriptWithOptions] on a
    fresh options object whose snapshot has been set to the given bytes:
    the two runs are equal, and what comes back is the engine's answer to
    the source text under options carrying exactly those bytes. *)
Theorem CreateScriptWithSnapshot_delegates `{E : C.Engine} :
  forall self script snapshot p,
    Session.CreateScriptWithSnapshot self script snapshot p =
      (let* opts := NewScriptOptions "frida-go" in
       ScriptOptions.SetSnapshot opts snapshot ;;
       Session.CreateScriptWithOptions self script (Some opts)) p /\
    exists p',
      let r := C.frida_session_create_script_sync
                 (Session.s self) (C.CString script)
                 {| C.view_name := Some "frida-go";
                    C.view_snapshot := Some snapshot;
                    C.view_snapshot_transport := 0%Z;
                    C.view_runtime := 0%Z |} in
      Session.CreateScriptWithSnapshot self script snapshot p =
        Ok (Some {| Script.sc := fst r |}, handleGError (snd r)) p'.
Proof.
  intros self script snapshot p. split; [reflexivity|].
  apply CreateScriptWithSnapshot_run.
Qed.

Lemma snapshot_valid_snoc (x : FridaScriptOptions) (g : list (option GBytes)) y :
  match priv_snapshot x with
  | None => True
  | Some a => exists b, g !! a = Some (Some b)
  end ->
  match priv_snapshot x with
  | None => True
  | Some a => exists b, (g ++ [y]) !! a = Some (Some b)
  end.
Proof.
  destruct (priv_snapshot x) as [a|]; auto.
  intros [b Hb]. exists b.
  rewrite lookup_app_l; auto. eapply lookup_lt_Some; eauto.
Qed.

Lemma CreateScriptBytes_prepared `{E : C.Engine} self payload opts o x p pC :
  Session.options_or_default opts
    {| script_options := script_options p;
       gbytes := gbytes p ++ [Some {| g_ref_count := 1; g_data := payload |}];
       finalizers := length (gbytes p) :: finalizers p |} = Ok o pC ->
  gbytes pC = gbytes p ++ [Some {| g_ref_count := 1; g_data := payload |}] ->
  script_options pC !! ScriptOptions.opts o = Some (Some x) ->
  match priv_snapshot x with
  | None => True
  | Some a => exists b, gbytes pC !! a = Some (Some b)
  end ->
  exists view p',
    C.view_name view = priv_name x /\
    Session.CreateScriptBytes self payload opts p =
      Ok (Some {| Script.sc :=
                    fst (C.frida_session_create_script_from_bytes_sync
                           (Session.s self) payload view) |},
          handleGError
            (snd (C.frida_session_create_script_from_bytes_sync
                    (Session.s self) payload view))) p'.
Proof.
  intros Hprep Hgb Ho Hs.
  unfold Session.CreateScriptBytes, goBytesToGBytes, C.g_bytes_new,
    runtime_SetFinalizer.
  unfold bind at 1. unfold bind at 1. simpl.
  rewrite (bind_ok _ _ _ _ _ Hprep).
  destruct (script_options_read_ok _ _ _ Ho Hs)
    as (view & Hread & Hn & _).
  destruct (frida_unref_ok _ _ _ Ho Hs) as [p' Hp'].
  exists view, p'. split; [exact Hn|].
  rewrite (bind_ok _ _ _ _ _ Hread).
  assert (Hb : gbytes pC !! length (gbytes p) =
               Some (Some {| g_ref_count := 1; g_data := payload |}))
    by (rewrite Hgb; apply lookup_snoc).
  rewrite (bind_ok _ _ _ _ _ (gbytes_deref_ok _ _ _ Hb)). simpl.
  destruct (C.frida_session_create_script_from_bytes_sync _ _ view)
    as [cs err].
  unfold clean. now rewrite (bind_ok _ _ _ _ _ Hp').
Qed.

(** C5: [CreateScriptBytes] builds a "frida-go" options object for a nil
    argument, but hands supplied options to the engine with the name they
    have: it has no counterpart of the empty-name check of
    [CreateScriptWithOptions], so an empty name reaches the engine. *)
Theorem CreateScriptBytes_keeps_the_name `{E : C.Engine} :
  forall self payload opts p,
    (forall o, opts = Some o -> options_valid o p = true) ->
    exists view p',
      Session.CreateScriptBytes self payload opts p =
        Ok (Some {| Script.sc :=
                      fst (C.frida_session_create_script_from_bytes_sync
                             (Session.s self) payload view) |},
            handleGError
              (snd (C.frida_session_create_script_from_bytes_sync
                      (Session.s self) payload view))) p' /\
      (opts = None -> C.view_name view = Some "frida-go") /\
      (forall o x,
         opts = Some o ->
         script_options p !! ScriptOptions.opts o = Some (Some x) ->
         C.view_name view = priv_name x).
Proof.
  intros self payload [o|] p Hvalid.
  - destruct (options_valid_inv o p (Hvalid o eq_refl)) as (x & Ho & Hs).
    destruct (CreateScriptBytes_prepared self payload (Some o) o x p _
                eq_refl eq_refl Ho
                (snapshot_valid_snoc x (gbytes p) _ Hs))
      as (view & p' & Hn & Heq).
    exists view, p'. split; [exact Heq|]. split; [discriminate|].
    intros o' x' [= <-] Ho'. rewrite Ho in Ho'. now inversion Ho'; subst.
  - destruct (CreateScriptBytes_prepared self payload None _ _ p _
                (options_or_default_nil _) eq_refl (lookup_snoc _ _) I)
      as (view & p' & Hn & Heq).
    exists view, p'. split; [exact Heq|]. split; [|discriminate].
    intros _. exact Hn.
Qed.

Lemma CreateScriptBytes_keeps_the_name_witness :
  options_valid unnamed_options unnamed_process = true /\
  exists view p',
    Session.CreateScriptBytes (E := rejecting_engine)
      a_session [x2a%byte] (Some unnamed_options) unnamed_process =
      Ok (Some {| Script.sc := None |},
          Some (FError {| C.code := 1%Z;
                          C.message := C.GoString (C.view_name view) |})) p' /\
    C.view_name view = Some "".
Proof.
  split; [reflexivity|].
  destruct (CreateScriptBytes_keeps_the_name (E := rejecting_engine)
              a_session [x2a%byte] (Some unnamed_options) unnamed_process)
    as (view & p' & Heq & _ & Hname).
  { intros o [= <-]. reflexivity. }
  exists view, p'. split; [exact Heq|].
  exact (Hname _ _ eq_refl eq_refl).
Defined.

Lemma CompileScript_prepared `{E : C.Engine} self script opts o x p pC :
  Session.options_or_default opts p = Ok o pC ->
  script_options pC !! ScriptOptions.opts o = Some (Some x) ->
  match priv_snapshot x with
  | None => True
  | Some a => exists b, gbytes pC !! a = Some (Some b)
  end ->
  exists view p',
    C.view_name view = priv_name x /\
    let r := C.frida_session_compile_script_sync
               (Session.s self) (C.CString script) view in
    Session.CompileScript self script opts p =
      Ok (match snd r, fst r with
          | None, Some data => data
          | _, _ => []
          end, handleGError (snd r)) p'.
Proof.
  intros Hprep Ho Hs.
  unfold Session.CompileScript.
  rewrite (bind_ok _ _ _ _ _ Hprep).
  destruct (script_options_read_ok _ _ _ Ho Hs) as (view & Hread & Hn & _).
  exists view.
  rewrite (bind_ok _ _ _ _ _ Hread).
  destruct (C.frida_session_compile_script_sync _ _ view) as [r err].
  destruct r as [data|]; simpl.
  - unfold C.g_bytes_new. unfold bind at 1. unfold bind at 1. unfold ret at 1.
    set (pD := {| script_options := script_options pC;
                  gbytes := gbytes pC ++ [Some {| g_ref_count := 1;
                                                  g_data := data |}];
                  finalizers := finalizers pC |}).
    destruct (frida_unref_ok (ScriptOptions.opts o) x pD Ho
                (snapshot_valid_snoc x (gbytes pC) _ Hs)) as [p' Hp'].
    exists p'. split; [exact Hn|].
    destruct err as [g|].
    + now rewrite (bind_ok _ _ _ _ _ Hp').
    + unfold getGBytes. unfold bind at 1. unfold bind at 1.
      rewrite (gbytes_deref_ok (length (gbytes pC)) _ pD (lookup_snoc _ _)).
      unfold ret at 1. now rewrite (bind_ok _ _ _ _ _ Hp').
  - destruct (frida_unref_ok _ _ _ Ho Hs) as [p' Hp'].
    exists p'. split; [exact Hn|].
    destruct err as [g|]; cbv [bind ret getGBytes]; now rewrite Hp'.
Qed.

(** ** Session: nil options *)

(** C10: [SnapshotScript], [SetupPeerConnection] and [JoinPortal] read
    the [opts] field of their options argument unconditionally, so a nil
    argument is a nil pointer dereference, whatever the session and the
    engine; [CreateScriptWithOptions], [CreateScriptBytes] and
    [CompileScript] replace a nil argument by options named "frida-go"
    and return. *)
Theorem nil_options_fault_or_default `{E : C.Engine} :
  forall self script payload address p,
    Session.SnapshotScript self script None p = Fault NilPointerDereference /\
    Session.SetupPeerConnection self None p = Fault NilPointerDereference /\
    Session.JoinPortal self address None p = Fault NilPointerDereference /\
    (exists view p',
       C.view_name view = Some "frida-go" /\
       let r := C.frida_session_create_script_sync
                  (Session.s self) (C.CString script) view in
       Session.CreateScriptWithOptions self script None p =
         Ok (Some {| Script.sc := fst r |}, handleGError (snd r)) p') /\
    (exists view p',
       C.view_name view = Some "frida-go" /\
       let r := C.frida_session_create_script_from_bytes_sync
                  (Session.s self) payload view in
       Session.CreateScriptBytes self payload None p =
         Ok (Some {| Script.sc := fst r |}, handleGError (snd r)) p') /\
    (exists view p',
       C.view_name view = Some "frida-go" /\
       let r := C.frida_session_compile_script_sync
                  (Session.s self) (C.CString script) view in
       Session.CompileScript self script None p =
         Ok (match snd r, fst r with
             | None, Some data => data
             | _, _ => []
             end, handleGError (snd r)) p').
Proof.
  intros self script payload address p.
  split; [reflexivity|]. split; [reflexivity|]. split; [reflexivity|].
  split; [|split].
  - destruct (CreateScriptWithOptions_prepared self script None _ _ p _
                (options_or_default_nil p) (lookup_snoc _ _) I)
      as (view & p' & Hn & _ & _ & _ & Heq).
    exists view, p'. split; [exact Hn|exact Heq].
  - destruct (CreateScriptBytes_prepared self payload None _ _ p _
                (options_or_default_nil _) eq_refl (lookup_snoc _ _) I)
      as (view & p' & Hn & Heq).
    exists view, p'. split; [exact Hn|exact Heq].
  - destruct (CompileScript_prepared self script None _ _ p _
                (options_or_default_nil p) (lookup_snoc _ _) I)
      as (view & p' & Hn & Heq).
    exists view, p'. split; [exact Hn|exact Heq].
Qed.

(** ** Session: the shape of results *)

Lemma SnapshotScript_run `{E : C.Engine} self script so p :
  exists p',
    let r := C.frida_session_snapshot_script_sync
               (Session.s self) (C.CString script) (SnapshotOptions.opts so) in
    Session.SnapshotScript self script (Some so) p =
      Ok (match snd r, fst r with
          | None, Some data => data
          | _, _ => []
          end, handleGError (snd r)) p'.
Proof.
  unfold Session.SnapshotScript.
  destruct (C.frida_session_snapshot_script_sync _ _ _) as [[data|] [g|]];
    cbv [C.returned_gbytes C.g_bytes_new bind ret getGBytes C.gbytes_deref];
    simpl; try rewrite lookup_snoc; eexists; reflexivity.
Qed.

(** C2 (as the code has it): on live options every value-and-error
    method returns, and its error is the wrapped engine error.
    [CompileScript] and [SnapshotScript] return the nil slice with an
    error and the engine's bytes without one.  [CreateScript],
    [CreateScriptWithOptions], [CreateScriptBytes],
    [CreateScriptWithSnapshot] and [JoinPortal] return a non-nil wrapper
    around the engine's handle in every case, also next to an error. *)
Theorem session_results_shape `{E : C.Engine} :
  forall self script payload snapshot address opts so po p,
    (forall o, opts = Some o -> options_valid o p = true) ->
    returns_wrapper Script.Build_t
      (C.frida_session_create_script_sync (Session.s self) (C.CString script))
      (Session.CreateScript self script p) /\
    returns_wrapper Script.Build_t
      (C.frida_session_create_script_sync (Session.s self) (C.CString script))
      (Session.CreateScriptWithOptions self script opts p) /\
    returns_wrapper Script.Build_t
      (C.frida_session_create_script_from_bytes_sync (Session.s self) payload)
      (Session.CreateScriptBytes self payload opts p) /\
    returns_wrapper Script.Build_t
      (C.frida_session_create_script_sync (Session.s self) (C.CString script))
      (Session.CreateScriptWithSnapshot self script snapshot p) /\
    returns_bytes
      (C.frida_session_compile_script_sync (Session.s self) (C.CString script))
      (Session.CompileScript self script opts p) /\
    returns_bytes
      (fun _ => C.frida_session_snapshot_script_sync
                  (Session.s self) (C.CString script) (SnapshotOptions.opts so))
      (Session.SnapshotScript self script (Some so) p) /\
    returns_wrapper PortalMembership.Build_t
      (fun _ => C.frida_session_join_portal_sync
                  (Session.s self) (C.CString address) (PortalOptions.opts po))
      (Session.JoinPortal self address (Some po) p).
Proof.
  intros self script payload snapshot address opts so po p Hvalid.
  assert (Hprep : exists o x pC,
             Session.options_or_default opts p = Ok o pC /\
             script_options pC !! ScriptOptions.opts o = Some (Some x) /\
             match priv_snapshot x with
             | None => True
             | Some a => exists b, gbytes pC !! a = Some (Some b)
             end).
  { destruct opts as [o|].
    - destruct (options_valid_inv o p (Hvalid o eq_refl)) as (x & Ho & Hs).
      exists o, x, p. auto.
    - eexists _, _, _. split; [apply options_or_default_nil|].
      split; [apply lookup_snoc|exact I]. }
  destruct Hprep as (o & x & pC & Hprep & Ho & Hs).
  split; [|split; [|split; [|split; [|split; [|split]]]]].
  - destruct (CreateScriptWithOptions_prepared self script None _ _ p _
                (options_or_default_nil p) (lookup_snoc _ _) I)
      as (view & p' & _ & _ & _ & _ & Heq).
    exists view, p'. exact Heq.
  - destruct (CreateScriptWithOptions_prepared self script opts _ _ p _
                Hprep Ho Hs) as (view & p' & _ & _ & _ & _ & Heq).
    exists view, p'. exact Heq.
  - destruct opts as [o'|].
    + destruct (options_valid_inv o' p (Hvalid o' eq_refl)) as (x' & Ho' & Hs').
      destruct (CreateScriptBytes_prepared self payload (Some o') o' x' p _
                  eq_refl eq_refl Ho'
                  (snapshot_valid_snoc x' (gbytes p) _ Hs'))
        as (view & p' & _ & Heq).
      exists view, p'. exact Heq.
    + destruct (CreateScriptBytes_prepared self payload None _ _ p _
                  (options_or_default_nil _) eq_refl (lookup_snoc _ _) I)
        as (view & p' & _ & Heq).
      exists view, p'. exact Heq.
  - destruct (CreateScriptWithSnapshot_run self script snapshot p)
      as (p' & Heq).
    eexists _, p'. exact Heq.
  - destruct (CompileScript_prepared self script opts _ _ p _ Hprep Ho Hs)
      as (view & p' & _ & Heq).
    exists view, p'. exact Heq.
  - destruct (SnapshotScript_run self script so p) as (p' & Heq).
    exists {| C.view_name := None; C.view_snapshot := None;
              C.view_snapshot_transport := 0%Z; C.view_runtime := 0%Z |}, p'.
    exact Heq.
  - exists {| C.view_name := None; C.view_snapshot := None;
              C.view_snapshot_transport := 0%Z; C.view_runtime := 0%Z |}, p.
    unfold Session.JoinPortal.
    now destruct (C.frida_session_join_portal_sync _ _ _).
Qed.

Lemma session_results_shape_witness :
  options_valid unnamed_options unnamed_process = true /\
  returns_wrapper Script.Build_t
    (C.frida_session_create_script_sync (Engine := rejecting_engine)
       (Session.s a_session) (C.CString "send(1)"))
    (Session.CreateScriptWithOptions (E := rejecting_engine)
       a_session "send(1)" (Some unnamed_options) unnamed_process).
Proof.
  split; [reflexivity|].
  refine (proj1 (proj2 (session_results_shape (E := rejecting_engine)
                          a_session "send(1)" [] [] "" (Some unnamed_options)
                          {| SnapshotOptions.opts := 0 |}
                          {| PortalOptions.opts := 0 |}
                          unnamed_process _))).
  intros o [= <-]. reflexivity.
Defined.

(** C2 fails as stated: when the engine rejects the script,
    [CreateScriptWithOptions] returns a non-nil [*Script] together with a
    non-nil error. *)
Lemma CreateScriptWithOptions_error_with_wrapper :
  exists r p',
    Session.CreateScriptWithOptions (E := rejecting_engine)
      a_session "send(1)" None empty_process = Ok r p' /\
    exactly_one_populated r = false /\
    fst r <> None /\ snd r <> None.
Proof.
  eexists. eexists. split; [vm_compute; reflexivity|].
  repeat split; discriminate.
Qed.

(** ** ScriptOptions: round trips *)

Lemma CString_nul_free name : nul_free name = true -> C.CString name = name.
Proof.
  induction name as [|c rest IH]; simpl; auto.
  destruct (Ascii.eqb c Ascii.zero); simpl; try discriminate.
  intros H. now rewrite IH.
Qed.

(** C6 (as the code has it): on live options, [GetName] after [SetName]
    returns the name as C sees it, which is the name itself when it has
    no NUL byte, and [GetSnapshot] after [SetSnapshot] returns the blob
    byte for byte. *)
Theorem ScriptOptions_round_trip :
  forall o p,
    options_valid o p = true ->
    (forall name,
       exists p',
         (ScriptOptions.SetName o name ;; ScriptOptions.GetName o) p =
           Ok (C.CString name) p' /\
         (nul_free name = true -> C.CString name = name)) /\
    (forall value,
       exists p',
         (ScriptOptions.SetSnapshot o value ;; ScriptOptions.GetSnapshot o) p =
           Ok value p').
Proof.
  intros o p Hvalid.
  destruct (options_valid_inv o p Hvalid) as (x & Ho & Hs).
  assert (Hlt : ScriptOptions.opts o < length (script_options p))
    by (eapply lookup_lt_Some; eauto).
  split.
  - intros name. eexists. split; [|apply CString_nul_free].
    rewrite (bind_ok _ _ _ _ _ (SetName_ok _ _ _ name Ho)).
    apply GetName_ok with
      (x := {| ref_count := ref_count x;
               priv_name := Some (C.CString name);
               priv_snapshot := priv_snapshot x;
               priv_snapshot_transport := priv_snapshot_transport x;
               priv_runtime := priv_runtime x |}).
    simpl. now apply list_lookup_insert_eq.
  - intros value.
    destruct (SetSnapshot_ok o x p value Ho Hs)
      as (p1 & Hset & Hso & Hgb & _).
    rewrite (bind_ok _ _ _ _ _ Hset).
    eexists.
    apply GetSnapshot_ok with
      (x := {| ref_count := ref_count x; priv_name := priv_name x;
               priv_snapshot := Some (length (gbytes p));
               priv_snapshot_transport := priv_snapshot_transport x;
               priv_runtime := priv_runtime x |})
      (b := {| g_ref_count := 2; g_data := value |}).
    + rewrite Hso. now apply list_lookup_insert_eq.
    + reflexivity.
    + exact Hgb.
Qed.

Lemma ScriptOptions_round_trip_witness :
  options_valid unnamed_options unnamed_process = true /\
  (exists p',
     (ScriptOptions.SetName unnamed_options "agent" ;;
      ScriptOptions.GetName unnamed_options) unnamed_process =
       Ok "agent" p') /\
  (exists p',
     (ScriptOptions.SetSnapshot unnamed_options [x2a%byte] ;;
      ScriptOptions.GetSnapshot unnamed_options) unnamed_process =
       Ok [x2a%byte] p').
Proof.
  split; [reflexivity|].
  destruct (ScriptOptions_round_trip unnamed_options unnamed_process eq_refl)
    as [Hname Hsnap].
  split.
  - destruct (Hname "agent") as (p' & Heq & _). exists p'. exact Heq.
  - exact (Hsnap [x2a%byte]).
Defined.

(** C6 fails as stated: a name with a NUL byte does not read back. *)
Lemma GetName_truncates_at_NUL :
  exists p',
    (ScriptOptions.SetName unnamed_options name_with_nul ;;
     ScriptOptions.GetName unnamed_options) unnamed_process = Ok "a" p' /\
    "a" <> name_with_nul.
Proof.
  eexists. split; [vm_compute; reflexivity|discriminate].
Qed.

(** The transport getter reads back what [SetSnapshotTransport] stored,
    which is whatever its conversion makes of the [SnapshotOptions]
    argument. *)
Lemma GetSnapshotTransport_after_set conv o x p tr :
  script_options p !! ScriptOptions.opts o = Some (Some x) ->
  exists p',
    (ScriptOptions.SetSnapshotTransport conv o tr ;;
     ScriptOptions.GetSnapshotTransport o) p = Ok (conv tr) p'.
Proof.
  intros Ho.
  assert (Hlt : ScriptOptions.opts o < length (script_options p))
    by (eapply lookup_lt_Some; eauto).
  unfold ScriptOptions.SetSnapshotTransport,
    C.frida_script_options_set_snapshot_transport.
  unfold bind at 1. unfold bind at 1.
  rewrite (script_options_deref_ok _ _ _ Ho).
  unfold C.script_options_store.
  unfold ScriptOptions.GetSnapshotTransport,
    C.frida_script_options_get_snapshot_transport.
  eexists.
  rewrite bind_ok with
    (a := {| ref_count := ref_count x; priv_name := priv_name x;
             priv_snapshot := priv_snapshot x;
             priv_snapshot_transport := conv tr;
             priv_runtime := priv_runtime x |})
    (p' := {| script_options :=
                <[ScriptOptions.opts o :=
                    Some {| ref_count := ref_count x;
                            priv_name := priv_name x;
                            priv_snapshot := priv_snapshot x;
                            priv_snapshot_transport := conv tr;
                            priv_runtime := priv_runtime x |}]>
                  (script_options p);
              gbytes := gbytes p; finalizers := finalizers p |});
    [reflexivity|].
  apply script_options_deref_ok. simpl. now apply list_lookup_insert_eq.
Qed.

(** ** ScriptOptions: GetSnapshot and the snapshot reference *)

Lemma warm_process_reached :
  (let* o := NewScriptOptions "frida-go" in
   ScriptOptions.SetSnapshot o [x2a%byte] ;;
   run_finalizer 0 ;;
   ret o) empty_process = Ok warm_options warm_process.
Proof. reflexivity. Qed.

Lemma CreateScriptWithOptions_dangling `{E : C.Engine} self script o x a p :
  script_options p !! ScriptOptions.opts o = Some (Some x) ->
  priv_snapshot x = Some a ->
  gbytes p !! a = Some None ->
  Session.CreateScriptWithOptions self script (Some o) p =
    Fault InvalidReference.
Proof.
  intros Ho Hsnap Hb.
  assert (Hlt : ScriptOptions.opts o < length (script_options p))
    by (eapply lookup_lt_Some; eauto).
  assert (Hread : forall x1 p1,
             script_options p1 !! ScriptOptions.opts o = Some (Some x1) ->
             priv_snapshot x1 = Some a ->
             gbytes p1 = gbytes p ->
             forall B (k : C.ScriptOptionsView -> M B),
               bind (C.script_options_read (ScriptOptions.opts o)) k p1 =
               Fault InvalidReference).
  { intros x1 p1 Ho1 Hs1 Hg1 B k.
    apply bind_fault. unfold C.script_options_read.
    rewrite (bind_ok _ _ _ _ _ (script_options_deref_ok _ _ _ Ho1)).
    rewrite Hs1. apply bind_fault. apply bind_fault.
    unfold C.gbytes_deref. now rewrite Hg1, Hb. }
  unfold Session.CreateScriptWithOptions, Session.options_or_default.
  unfold bind at 1. unfold ret at 1.
  rewrite (bind_ok _ _ _ _ _ (Name_ok _ _ _ Ho)).
  destruct (String.eqb (C.GoString (priv_name x)) "").
  - rewrite (bind_ok _ _ _ _ _ (SetName_ok _ _ _ "frida-go" Ho)).
    eapply Hread;
      [simpl; now apply list_lookup_insert_eq|exact Hsnap|reflexivity].
  - unfold bind at 1. unfold ret at 1.
    eapply Hread; [exact Ho|exact Hsnap|reflexivity].
Qed.

(** C9: [GetSnapshot] is not a pure read.  On options pointing at a live
    blob it returns the blob's bytes and drops one reference of the blob,
    while the options go on pointing at it and nothing else changes: the
    reference the options held is gone.  When that was the only
    reference, the blob is freed, and a second [GetSnapshot] or a script
    creation from the same options uses an invalid reference. *)
Theorem GetSnapshot_gives_up_the_reference `{E : C.Engine} :
  forall o x a b p,
    script_options p !! ScriptOptions.opts o = Some (Some x) ->
    priv_snapshot x = Some a ->
    gbytes p !! a = Some (Some b) ->
    exists p',
      ScriptOptions.GetSnapshot o p = Ok (g_data b) p' /\
      p' <> p /\
      script_options p' = script_options p /\
      finalizers p' = finalizers p /\
      gbytes p' !! a =
        Some (if (g_ref_count b <=? 1)%nat then None
              else Some {| g_ref_count := pred (g_ref_count b);
                           g_data := g_data b |}) /\
      ((g_ref_count b <= 1)%nat ->
       ScriptOptions.GetSnapshot o p' = Fault InvalidReference /\
       forall self script,
         Session.CreateScriptWithOptions self script (Some o) p' =
           Fault InvalidReference).
Proof.
  intros o x a b p Ho Hsnap Hb.
  assert (Hlt : a < length (gbytes p)) by (eapply lookup_lt_Some; eauto).
  eexists. split; [apply (GetSnapshot_ok o x a b p Ho Hsnap Hb)|].
  simpl.
  assert (Hnew : <[a := if (g_ref_count b <=? 1)%nat then None
                        else Some {| g_ref_count := pred (g_ref_count b);
                                     g_data := g_data b |}]> (gbytes p) !! a =
                 Some (if (g_ref_count b <=? 1)%nat then None
                       else Some {| g_ref_count := pred (g_ref_count b);
                                    g_data := g_data b |}))
    by now apply list_lookup_insert_eq.
  split; [|split; [reflexivity|split; [reflexivity|split; [exact Hnew|]]]].
  - intros Heq. apply (f_equal gbytes) in Heq. simpl in Heq.
    rewrite Heq, Hb in Hnew.
    destruct (g_ref_count b <=? 1)%nat eqn:Hrc; [discriminate|].
    apply Nat.leb_gt in Hrc.
    inversion Hnew as [Hb']. apply (f_equal g_ref_count) in Hb'.
    simpl in Hb'. lia.
  - intros Hrc. apply Nat.leb_le in Hrc. rewrite Hrc in Hnew. rewrite Hrc.
    split.
    + eapply GetSnapshot_dangling; eauto.
    + intros self script.
      eapply CreateScriptWithOptions_dangling; eauto.
Qed.

Lemma GetSnapshot_gives_up_the_reference_witness :
  exists p',
    ScriptOptions.GetSnapshot warm_options warm_process =
      Ok [x2a%byte] p' /\
    ScriptOptions.GetSnapshot warm_options p' = Fault InvalidReference /\
    Session.CreateScriptWithOptions (E := accepting_engine)
      a_session "send(1)" (Some warm_options) p' = Fault InvalidReference.
Proof.
  destruct (GetSnapshot_gives_up_the_reference (E := accepting_engine)
              warm_options _ 0 _ warm_process eq_refl eq_refl eq_refl)
    as (p' & Hget & _ & _ & _ & _ & Hlast).
  destruct (Hlast (le_n 1)) as [Hagain Hcreate].
  exists p'. split; [exact Hget|]. split; [exact Hagain|].
  apply Hcreate.
Defined.

(** * Further properties *)

(** ** DetachCtx: the protocol around the claims *)

Lemma DetachCtx_run_snoc evs e : forall st st',
  DetachCtx.run (evs ++ [e]) st = Some st' ->
  exists st1, DetachCtx.run evs st = Some st1 /\ DetachCtx.step e st1 = Some st'.
Proof.
  induction evs as [|e0 evs IH]; simpl; intros st st' Hrun.
  - destruct (DetachCtx.step e st) as [st1|] eqn:Hstep; try discriminate.
    inversion Hrun; subst. eauto.
  - destruct (DetachCtx.step e0 st) as [st0|]; try discriminate.
    now apply IH.
Qed.

(** Every error waiting in [errC], and every engine error [DetachCtx] has
    returned, is the wrapped error of a Detach that returned it. *)
Lemma DetachCtx_errors_come_from_Detach evs : forall st,
  DetachCtx.run evs DetachCtx.start = Some st ->
  (forall g, In (FError g) (DetachCtx.errC st) ->
             In (DetachCtx.DetachReturns (Some g)) evs) /\
  (forall g, DetachCtx.main st = DetachCtx.Returned (Some (FError g)) ->
             In (DetachCtx.DetachReturns (Some g)) evs).
Proof.
  induction evs as [|e evs IH] using rev_ind; intros st Hrun.
  - inversion Hrun; subst; simpl. split; [tauto|discriminate].
  - destruct (DetachCtx_run_snoc _ _ _ _ Hrun) as (st1 & Hrun1 & Hstep).
    destruct (IH st1 Hrun1) as [HerrC Hmain].
    assert (Hweak : forall g, In (DetachCtx.DetachReturns (Some g)) evs ->
                              In (DetachCtx.DetachReturns (Some g)) (evs ++ [e]))
      by (intros g Hin; apply in_or_app; now left).
    destruct st1 as [dn ec cd tok go mn]; simpl in *.
    destruct e as [ | gErr | | k]; simpl in Hstep.
    + inversion Hstep; subst; simpl; split; intros g Hg; auto.
    + destruct go; try discriminate.
      destruct gErr as [g0|]; simpl in Hstep.
      * destruct (length ec <? 1)%nat; try discriminate.
        inversion Hstep; subst; simpl. split; intros g Hg; auto.
        apply in_app_or in Hg. destruct Hg as [Hg|[Hg|[]]]; auto.
        inversion Hg; subst. apply in_or_app. right. now left.
      * inversion Hstep; subst; simpl; split; intros g Hg; auto.
    + destruct go; try discriminate. destruct dn; try discriminate.
      inversion Hstep; subst; simpl; split; intros g Hg; auto.
    + destruct mn; try discriminate. destruct k.
      * destruct cd; try discriminate.
        inversion Hstep; subst; simpl. split; intros g Hg; auto.
        discriminate.
      * destruct dn; try discriminate.
        inversion Hstep; subst; simpl. split; intros g Hg; auto.
        discriminate.
      * destruct ec as [|err rest]; try discriminate.
        inversion Hstep; subst; simpl. split; intros g Hg.
        -- apply Hweak, HerrC. now right.
        -- inversion Hg; subst. apply Hweak, HerrC. now left.
Qed.

(** X1: an engine error is what [DetachCtx] returns only if the
    underlying Detach returned exactly that error; the token has then been
    released and was never cancelled. *)
Theorem DetachCtx_propagates_the_Detach_error :
  forall evs st g,
    DetachCtx.run evs DetachCtx.start = Some st ->
    DetachCtx.main st = DetachCtx.Returned (Some (FError g)) ->
    In (DetachCtx.DetachReturns (Some g)) evs /\
    Cancellable.released (DetachCtx.c st) = true /\
    Cancellable.cancelled (DetachCtx.c st) = false.
Proof.
  intros evs st g Hrun Hmain.
  split.
  - now apply (proj2 (DetachCtx_errors_come_from_Detach evs st Hrun)).
  - pose proof (DetachCtx_inv_run evs _ _ DetachCtx_inv_start Hrun)
      as (_ & _ & Htok & _).
    rewrite Hmain in Htok. rewrite Htok. split; reflexivity.
Qed.

Lemma DetachCtx_propagates_the_Detach_error_witness :
  exists st,
    DetachCtx.run
      [DetachCtx.DetachReturns (Some {| C.code := 4%Z; C.message := "gone" |});
       DetachCtx.Select DetachCtx.CaseErrC] DetachCtx.start = Some st /\
    DetachCtx.main st =
      DetachCtx.Returned
        (Some (FError {| C.code := 4%Z; C.message := "gone" |})) /\
    Cancellable.released (DetachCtx.c st) = true /\
    Cancellable.cancelled (DetachCtx.c st) = false.
Proof.
  eexists. split; [reflexivity|]. split; [reflexivity|].
  exact (proj2 (DetachCtx_propagates_the_Detach_error
                  [DetachCtx.DetachReturns
                     (Some {| C.code := 4%Z; C.message := "gone" |});
                   DetachCtx.Select DetachCtx.CaseErrC]
                  _ _ eq_refl eq_refl)).
Defined.

(** X2: after a successful Detach the goroutine is parked on [<-done]
    for good: whatever happens next, it never gets past the receive. *)
Theorem DetachCtx_goroutine_stays_parked :
  forall evs st evs' st',
    DetachCtx.run evs DetachCtx.start = Some st ->
    DetachCtx.goroutine st = DetachCtx.ReceivingDone ->
    DetachCtx.run evs' st = Some st' ->
    DetachCtx.goroutine st' = DetachCtx.ReceivingDone.
Proof.
  intros evs st evs' st' Hrun Hgo Hrun'.
  pose proof (DetachCtx_inv_run evs _ _ DetachCtx_inv_start Hrun) as Hinv.
  clear Hrun. revert st Hinv Hgo Hrun'.
  induction evs' as [|e evs' IH]; simpl; intros st Hinv Hgo Hrun'.
  - now inversion Hrun'; subst.
  - destruct (DetachCtx.step e st) as [st1|] eqn:Hstep; try discriminate.
    apply (IH st1); auto.
    + eapply DetachCtx_inv_step; eauto.
    + destruct Hinv as (Hdone & _).
      destruct st as [dn ec cd tok go mn]; simpl in *; subst.
      destruct e as [ | gErr | | k]; simpl in Hstep; try discriminate.
      * now inversion Hstep.
      * destruct mn; try discriminate.
        destruct k; [destruct cd| |destruct ec]; try discriminate;
          now inversion Hstep.
Qed.

Lemma DetachCtx_goroutine_stays_parked_witness :
  exists st',
    DetachCtx.run
      [DetachCtx.DetachReturns None; DetachCtx.CtxDone;
       DetachCtx.Select DetachCtx.CaseCtxDone] DetachCtx.start = Some st' /\
    DetachCtx.goroutine st' = DetachCtx.ReceivingDone.
Proof.
  eexists. split; [reflexivity|].
  apply (DetachCtx_goroutine_stays_parked
           [DetachCtx.DetachReturns None] _
           [DetachCtx.CtxDone; DetachCtx.Select DetachCtx.CaseCtxDone] _
           eq_refl eq_refl eq_refl).
Defined.

(** X3: a failing Detach never leaves the goroutine behind.  While the
    goroutine is inside Detach the buffer of [errC] is empty, so its send
    of the error goes through at once and the goroutine ends, also when
    [DetachCtx] has returned on the context long before. *)
Theorem DetachCtx_failed_Detach_ends_the_goroutine :
  forall evs st g,
    DetachCtx.run evs DetachCtx.start = Some st ->
    DetachCtx.goroutine st = DetachCtx.Detaching ->
    exists st',
      DetachCtx.step (DetachCtx.DetachReturns (Some g)) st = Some st' /\
      DetachCtx.goroutine st' = DetachCtx.Exited /\
      DetachCtx.errC st' = [FError g] /\
      DetachCtx.main st' = DetachCtx.main st /\
      DetachCtx.c st' = DetachCtx.c st.
Proof.
  intros evs st g Hrun Hgo.
  pose proof (DetachCtx_inv_run evs _ _ DetachCtx_inv_start Hrun)
    as (_ & _ & _ & Hworker).
  rewrite Hgo in Hworker. destruct Hworker as [HerrC _].
  destruct st as [dn ec cd tok go mn]; simpl in *; subst.
  eexists. split; [reflexivity|]. simpl. auto.
Qed.

Lemma DetachCtx_failed_Detach_ends_the_goroutine_witness :
  exists st st',
    DetachCtx.run [DetachCtx.CtxDone; DetachCtx.Select DetachCtx.CaseCtxDone]
      DetachCtx.start = Some st /\
    DetachCtx.step
      (DetachCtx.DetachReturns (Some {| C.code := 4%Z; C.message := "gone" |}))
      st = Some st' /\
    DetachCtx.goroutine st' = DetachCtx.Exited.
Proof.
  eexists.
  destruct (DetachCtx_failed_Detach_ends_the_goroutine
              [DetachCtx.CtxDone; DetachCtx.Select DetachCtx.CaseCtxDone] _
              {| C.code := 4%Z; C.message := "gone" |} eq_refl eq_refl)
    as (st' & Hstep & Hgo & _).
  exists st'. split; [reflexivity|]. split; [exact Hstep|exact Hgo].
Defined.



(** X5: [DetachCtx] reports once.  After it has returned no case of the
    [select] runs again, and no later event (the context ending, Detach
    returning) changes the result or the token. *)
Theorem DetachCtx_reports_once :
  forall st r,
    DetachCtx.main st = DetachCtx.Returned r ->
    (forall k, DetachCtx.step (DetachCtx.Select k) st = None) /\
    forall evs' st',
      DetachCtx.run evs' st = Some st' ->
      DetachCtx.main st' = DetachCtx.Returned r /\
      DetachCtx.c st' = DetachCtx.c st /\
      ~ In (DetachCtx.Select DetachCtx.CaseCtxDone) evs' /\
      ~ In (DetachCtx.Select DetachCtx.CaseDone) evs' /\
      ~ In (DetachCtx.Select DetachCtx.CaseErrC) evs'.
Proof.
  intros st r Hmain. split.
  - intros k. unfold DetachCtx.step. now rewrite Hmain.
  - intros evs' st' Hrun'.
    destruct (DetachCtx_returned_frozen evs' st st' r Hmain Hrun') as [Hm Hc].
    split; [exact Hm|]. split; [exact Hc|].
    assert (Hno : forall k, ~ In (DetachCtx.Select k) evs').
    { intros k. clear Hm Hc. revert st Hmain Hrun'.
      induction evs' as [|e evs' IH]; simpl; intros st Hmain Hrun'; [tauto|].
      destruct (DetachCtx.step e st) as [st1|] eqn:Hstep; try discriminate.
      intros [He|Hin].
      - subst e. unfold DetachCtx.step in Hstep. now rewrite Hmain in Hstep.
      - apply (IH st1); auto.
        apply (DetachCtx_returned_frozen [e] st st1 r Hmain).
        simpl. now rewrite Hstep. }
    repeat split; apply Hno.
Qed.

Lemma DetachCtx_reports_once_witness :
  exists st st',
    DetachCtx.run [DetachCtx.CtxDone; DetachCtx.Select DetachCtx.CaseCtxDone]
      DetachCtx.start = Some st /\
    DetachCtx.run
      [DetachCtx.DetachReturns (Some {| C.code := 4%Z; C.message := "gone" |})]
      st = Some st' /\
    DetachCtx.main st' = DetachCtx.Returned (Some ErrContextCancelled).
Proof.
  eexists. eexists. split; [reflexivity|].
  match goal with
  | |- DetachCtx.run _ ?st = _ /\ _ =>
      destruct (DetachCtx_reports_once st (Some ErrContextCancelled) eq_refl)
        as [_ Hlater]
  end.
  split; [reflexivity|].
  exact (proj1 (Hlater
                  [DetachCtx.DetachReturns
                     (Some {| C.code := 4%Z; C.message := "gone" |})]
                  _ eq_refl)).
Defined.

(** ** SnapshotOptions *)

(** X6: [NewSnapshotOptions] never fails and leaves the existing objects
    alone; on the options it returns, [GetWarmupScript] reads back the
    warmup script as C sees it (the script itself when it has no NUL
    byte) and [GetRuntime] the runtime, for every runtime in the
    non-negative range of a C enumeration. *)
Theorem NewSnapshotOptions_round_trip :
  forall warmupScript rt h,
    (0 <= rt < 2 ^ 31)%Z ->
    exists s h',
      NewSnapshotOptions warmupScript rt h = Ok s h' /\
      GetWarmupScript s h' = Ok (C.CString warmupScript) h' /\
      (nul_free warmupScript = true -> GetWarmupScript s h' = Ok warmupScript h') /\
      GetRuntime s h' = Ok rt h' /\
      h !! SnapshotOptions.opts s = None /\
      forall o, (o < length h)%nat -> h' !! o = h !! o.
Proof.
  intros w rt h Hrt.
  assert (Hmod : FridaScriptRuntime_of_int rt = rt).
  { unfold FridaScriptRuntime_of_int. apply Z.mod_small. lia. }
  unfold NewSnapshotOptions, frida_snapshot_options_new,
    frida_snapshot_options_set_warmup_script,
    frida_snapshot_options_set_runtime, snapshot_options_update.
  rewrite lookup_snoc, insert_snoc, lookup_snoc, insert_snoc. simpl.
  rewrite Hmod.
  eexists. eexists. split; [reflexivity|].
  unfold GetWarmupScript, GetRuntime,
    frida_snapshot_options_get_warmup_script,
    frida_snapshot_options_get_runtime. simpl.
  rewrite lookup_snoc. simpl.
  split; [reflexivity|]. split; [|split; [reflexivity|split]].
  - intros Hnul. now rewrite (CString_nul_free _ Hnul).
  - now apply lookup_ge_None_2.
  - intros o Ho. now apply lookup_app_l.
Qed.

Lemma NewSnapshotOptions_round_trip_witness :
  exists s h',
    NewSnapshotOptions "warm()" 1%Z [] = Ok s h' /\
    GetWarmupScript s h' = Ok "warm()" h' /\
    GetRuntime s h' = Ok 1%Z h'.
Proof.
  destruct (NewSnapshotOptions_round_trip "warm()" 1%Z [])
    as (s & h' & Hnew & _ & Hw & Hr & _); [lia|].
  exists s, h'. split; [exact Hnew|]. split; [|exact Hr].
  apply Hw. reflexivity.
Defined.

(** ** ScriptOptions: construction and setters *)


Lemma script_options_read_eq o x p :
  script_options p !! o = Some (Some x) ->
  priv_snapshot x = None ->
  C.script_options_read o p =
  Ok {| C.view_name := priv_name x; C.view_snapshot := None;
        C.view_snapshot_transport := priv_snapshot_transport x;
        C.view_runtime := priv_runtime x |} p.
Proof.
  intros Ho Hs. unfold C.script_options_read.
  rewrite (bind_ok _ _ _ _ _ (script_options_deref_ok _ _ _ Ho)).
  now rewrite Hs.
Qed.



(** X7: [NewScriptOptions] never fails.  The options it returns sit at
    an address no object had, are valid, read back the name as C sees it
    and reach the engine with no snapshot and the default transport and
    runtime; options that were valid stay valid, and no blob or finalizer
    is touched. *)
Theorem NewScriptOptions_fresh_and_named :
  forall name p,
    exists o p',
      NewScriptOptions name p = Ok o p' /\
      script_options p !! ScriptOptions.opts o = None /\
      options_valid o p' = true /\
      ScriptOptions.GetName o p' = Ok (C.CString name) p' /\
      C.script_options_read (ScriptOptions.opts o) p' =
        Ok {| C.view_name := Some (C.CString name);
              C.view_snapshot := None;
              C.view_snapshot_transport := 0%Z;
              C.view_runtime := 0%Z |} p' /\
      (forall o', options_valid o' p = true -> options_valid o' p' = true) /\
      gbytes p' = gbytes p /\
      finalizers p' = finalizers p.
Proof.
  intros name p. eexists. eexists.
  split; [apply NewScriptOptions_eq|].
  split; [now apply lookup_ge_None_2|].
  split; [unfold options_valid; simpl; now rewrite lookup_snoc|].
  split; [apply (GetName_ok _
                   {| ref_count := 1; priv_name := Some (C.CString name);
                      priv_snapshot := None;
                      priv_snapshot_transport := 0%Z;
                      priv_runtime := 0%Z |}); apply lookup_snoc|].
  split; [apply (script_options_read_eq _
                   {| ref_count := 1; priv_name := Some (C.CString name);
                      priv_snapshot := None;
                      priv_snapshot_transport := 0%Z;
                      priv_runtime := 0%Z |});
          [apply lookup_snoc|reflexivity]|].
  split; [|split; reflexivity].
  intros o' Hvalid.
  destruct (options_valid_inv o' p Hvalid) as (x & Ho & Hs).
  unfold options_valid. simpl.
  rewrite lookup_app_l by (eapply lookup_lt_Some; eauto).
  rewrite Ho. destruct (priv_snapshot x) as [a|]; auto.
  destruct Hs as [b Hb]. now rewrite Hb.
Qed.



Lemma CString_is_nul_free s : nul_free (C.CString s) = true.
Proof.
  induction s as [|c rest IH]; simpl; auto.
  destruct (Ascii.eqb c Ascii.zero) eqn:Hc; simpl; auto.
  now rewrite Hc.
Qed.

Lemma CString_is_prefix s :
  exists rest,
    s = (C.CString s ++ rest)%string /\
    (rest = "" \/ exists r, rest = String Ascii.zero r).
Proof.
  induction s as [|c s IH]; simpl.
  - exists "". auto.
  - destruct (Ascii.eqb c Ascii.zero) eqn:Hc.
    + apply Ascii.eqb_eq in Hc. subst c.
      exists (String Ascii.zero s). simpl. eauto.
    + destruct IH as (rest & Heq & Hrest).
      exists rest. simpl. split; [now rewrite <- Heq|exact Hrest].
Qed.

(** X9: what [GetName] returns after [SetName name] never holds a NUL
    byte: it is the part of [name] before its first NUL byte, the rest
    being lost. *)
Theorem GetName_returns_the_part_before_NUL :
  forall o p name,
    options_valid o p = true ->
    exists got p' rest,
      (ScriptOptions.SetName o name ;; ScriptOptions.GetName o) p = Ok got p' /\
      nul_free got = true /\
      name = (got ++ rest)%string /\
      (rest = "" \/ exists r, rest = String Ascii.zero r).
Proof.
  intros o p name Hvalid.
  destruct (options_valid_inv o p Hvalid) as (x & Ho & _).
  assert (Hlt : ScriptOptions.opts o < length (script_options p))
    by (eapply lookup_lt_Some; eauto).
  destruct (CString_is_prefix name) as (rest & Heq & Hrest).
  exists (C.CString name). eexists. exists rest.
  split; [|split; [apply CString_is_nul_free|split; assumption]].
  rewrite (bind_ok _ _ _ _ _ (SetName_ok _ _ _ name Ho)).
  apply GetName_ok with
    (x := {| ref_count := ref_count x;
             priv_name := Some (C.CString name);
             priv_snapshot := priv_snapshot x;
             priv_snapshot_transport := priv_snapshot_transport x;
             priv_runtime := priv_runtime x |}).
  simpl. now apply list_lookup_insert_eq.
Qed.

Lemma GetName_returns_the_part_before_NUL_witness :
  exists p',
    (ScriptOptions.SetName unnamed_options name_with_nul ;;
     ScriptOptions.GetName unnamed_options) unnamed_process = Ok "a" p' /\
    nul_free "a" = true.
Proof.
  destruct (GetName_returns_the_part_before_NUL
              unnamed_options unnamed_process name_with_nul eq_refl)
    as (got & p' & rest & Hrun & Hfree & _).
  exists p'. split; [|reflexivity].
  rewrite Hrun. f_equal.
  assert (Hgot : Ok got p' =
                 (ScriptOptions.SetName unnamed_options name_with_nul ;;
                  ScriptOptions.GetName unnamed_options) unnamed_process)
    by (symmetry; exact Hrun).
  vm_compute in Hgot. now inversion Hgot.
Defined.

(** ** Session: what becomes of the native objects *)

Lemma frida_unref_last o x p :
  script_options p !! o = Some (Some x) ->
  ref_count x <= 1 ->
  match priv_snapshot x with
  | None => True
  | Some a => exists b, gbytes p !! a = Some (Some b)
  end ->
  C.frida_unref o p =
  Ok tt {| script_options := <[o := None]> (script_options p);
           gbytes := release_snapshot x (gbytes p);
           finalizers := finalizers p |}.
Proof.
  intros Ho Hrc Hs. unfold C.frida_unref, release_snapshot.
  rewrite (bind_ok _ _ _ _ _ (script_options_deref_ok _ _ _ Ho)).
  apply Nat.leb_le in Hrc. rewrite Hrc.
  destruct (priv_snapshot x) as [a|].
  - destruct Hs as [b Hb]. rewrite Hb.
    unfold C.g_bytes_unref, drop_ref.
    unfold bind at 1. unfold bind at 1.
    rewrite (gbytes_deref_ok _ _ _ Hb).
    now destruct (g_ref_count b <=? 1)%nat.
  - reflexivity.
Qed.

(** [CreateScriptWithOptions] ends by giving up the reference to the
    options it used: options holding their only reference are disposed,
    and their snapshot loses the reference the options held. *)
Lemma CreateScriptWithOptions_releases `{E : C.Engine} self script opts o x p0 p :
  Session.options_or_default opts p0 = Ok o p ->
  script_options p !! ScriptOptions.opts o = Some (Some x) ->
  ref_count x <= 1 ->
  match priv_snapshot x with
  | None => True
  | Some a => exists b, gbytes p !! a = Some (Some b)
  end ->
  exists r,
    Session.CreateScriptWithOptions self script opts p0 =
    Ok r {| script_options := <[ScriptOptions.opts o := None]> (script_options p);
            gbytes := release_snapshot x (gbytes p);
            finalizers := finalizers p |}.
Proof.
  intros Hprep Ho Hrc Hs.
  assert (Hlt : ScriptOptions.opts o < length (script_options p))
    by (eapply lookup_lt_Some; eauto).
  unfold Session.CreateScriptWithOptions.
  rewrite (bind_ok _ _ _ _ _ Hprep).
  rewrite (bind_ok _ _ _ _ _ (Name_ok _ _ _ Ho)).
  destruct (String.eqb (C.GoString (priv_name x)) "").
  - rewrite (bind_ok _ _ _ _ _ (SetName_ok _ _ _ "frida-go" Ho)).
    set (x1 := {| ref_count := ref_count x;
                  priv_name := Some (C.CString "frida-go");
                  priv_snapshot := priv_snapshot x;
                  priv_snapshot_transport := priv_snapshot_transport x;
                  priv_runtime := priv_runtime x |}).
    set (p1 := {| script_options :=
                    <[ScriptOptions.opts o := Some x1]> (script_options p);
                  gbytes := gbytes p; finalizers := finalizers p |}).
    assert (Ho1 : script_options p1 !! ScriptOptions.opts o = Some (Some x1))
      by (simpl; now apply list_lookup_insert_eq).
    assert (Hs1 : match priv_snapshot x1 with
                  | None => True
                  | Some a => exists b, gbytes p1 !! a = Some (Some b)
                  end) by exact Hs.
    destruct (script_options_read_ok _ _ _ Ho1 Hs1) as (view & Hread & _).
    rewrite (bind_ok _ _ _ _ _ Hread).
    destruct (C.frida_session_create_script_sync _ _ view) as [cs err].
    unfold clean.
    rewrite (bind_ok _ _ _ _ _ (frida_unref_last _ _ _ Ho1 Hrc Hs1)).
    eexists. unfold ret. simpl. rewrite list_insert_insert_eq.
    reflexivity.
  - rewrite (bind_ok _ _ _ _ _ (eq_refl : ret tt p = Ok tt p)).
    destruct (script_options_read_ok _ _ _ Ho Hs) as (view & Hread & _).
    rewrite (bind_ok _ _ _ _ _ Hread).
    destruct (C.frida_session_create_script_sync _ _ view) as [cs err].
    unfold clean.
    rewrite (bind_ok _ _ _ _ _ (frida_unref_last _ _ _ Ho Hrc Hs)).
    eexists. reflexivity.
Qed.

(** Script methods on options whose native object has been disposed. *)
Lemma released_options_fault `{E : C.Engine} self o p :
  script_options p !! ScriptOptions.opts o = Some None ->
  ScriptOptions.GetName o p = Fault InvalidReference /\
  (forall script,
     Session.CreateScriptWithOptions self script (Some o) p =
       Fault InvalidReference) /\
  (forall payload,
     Session.CreateScriptBytes self payload (Some o) p =
       Fault InvalidReference) /\
  (forall script,
     Session.CompileScript self script (Some o) p = Fault InvalidReference).
Proof.
  intros Ho.
  assert (Hderef : forall p1,
             script_options p1 = script_options p ->
             C.script_options_deref (ScriptOptions.opts o) p1 =
               Fault InvalidReference).
  { intros p1 Hsp. unfold C.script_options_deref. now rewrite Hsp, Ho. }
  assert (Hname : ScriptOptions.GetName o p = Fault InvalidReference).
  { unfold ScriptOptions.GetName, C.frida_script_options_get_name.
    apply bind_fault, bind_fault. now apply Hderef. }
  split; [exact Hname|]. split; [|split].
  - intros script. unfold Session.CreateScriptWithOptions.
    unfold bind at 1. simpl. apply bind_fault. exact Hname.
  - intros payload.
    unfold Session.CreateScriptBytes, goBytesToGBytes, C.g_bytes_new,
      runtime_SetFinalizer.
    unfold bind at 1. unfold bind at 1. unfold bind at 1. simpl.
    apply bind_fault. unfold C.script_options_read. apply bind_fault.
    now apply Hderef.
  - intros script. unfold Session.CompileScript.
    unfold bind at 1. simpl.
    apply bind_fault. unfold C.script_options_read. apply bind_fault.
    now apply Hderef.
Qed.

(** X10: [CreateScriptWithOptions] uses up the options it is given.
    Options holding their one reference are disposed when the call
    returns (their snapshot losing the reference they held) while every
    other options object stays as it was; reading their name or handing
    them to a script method once more is a use of a freed object. *)
Theorem CreateScriptWithOptions_uses_up_the_options `{E : C.Engine} :
  forall self script o x p,
    script_options p !! ScriptOptions.opts o = Some (Some x) ->
    ref_count x <= 1 ->
    options_valid o p = true ->
    exists r p',
      Session.CreateScriptWithOptions self script (Some o) p = Ok r p' /\
      script_options p' !! ScriptOptions.opts o = Some None /\
      (forall o', o' <> ScriptOptions.opts o ->
                  script_options p' !! o' = script_options p !! o') /\
      gbytes p' = release_snapshot x (gbytes p) /\
      finalizers p' = finalizers p /\
      ScriptOptions.GetName o p' = Fault InvalidReference /\
      (forall script',
         Session.CreateScriptWithOptions self script' (Some o) p' =
           Fault InvalidReference) /\
      (forall payload,
         Session.CreateScriptBytes self payload (Some o) p' =
           Fault InvalidReference) /\
      (forall script',
         Session.CompileScript self script' (Some o) p' =
           Fault InvalidReference).
Proof.
  intros self script o x p Ho Hrc Hvalid.
  destruct (options_valid_inv o p Hvalid) as (x0 & Ho0 & Hs).
  rewrite Ho in Ho0. inversion Ho0; subst x0; clear Ho0.
  assert (Hlt : ScriptOptions.opts o < length (script_options p))
    by (eapply lookup_lt_Some; eauto).
  destruct (CreateScriptWithOptions_releases self script (Some o) o x p p
              eq_refl Ho Hrc Hs) as [r Heq].
  eexists. eexists. split; [exact Heq|]. simpl.
  assert (Hfreed : <[ScriptOptions.opts o := None]> (script_options p)
                     !! ScriptOptions.opts o = Some None)
    by now apply list_lookup_insert_eq.
  split; [exact Hfreed|].
  split; [intros o' Hne; apply list_lookup_insert_ne; congruence|].
  split; [reflexivity|]. split; [reflexivity|].
  apply (released_options_fault self o
           {| script_options :=
                <[ScriptOptions.opts o := None]> (script_options p);
              gbytes := release_snapshot x (gbytes p);
              finalizers := finalizers p |} Hfreed).
Qed.

Lemma CreateScriptWithOptions_uses_up_the_options_witness :
  exists r p',
    Session.CreateScriptWithOptions (E := accepting_engine)
      a_session "send(1)" (Some unnamed_options) unnamed_process = Ok r p' /\
    Session.CreateScriptWithOptions (E := accepting_engine)
      a_session "send(2)" (Some unnamed_options) p' = Fault InvalidReference.
Proof.
  destruct (CreateScriptWithOptions_uses_up_the_options
              (E := accepting_engine) a_session "send(1)"
              unnamed_options _ unnamed_process eq_refl (le_n 1) eq_refl)
    as (r & p' & Heq & _ & _ & _ & _ & _ & Hagain & _).
  exists r, p'. split; [exact Heq|apply Hagain].
Defined.

(** X11: [CreateScript] cleans up after itself: the default options it
    builds are disposed when it returns, every object and blob that
    existed is as it was, and no finalizer is registered. *)
Theorem CreateScript_cleans_up `{E : C.Engine} :
  forall self script p,
    exists r,
      Session.CreateScript self script p =
      Ok r {| script_options := script_options p ++ [None];
              gbytes := gbytes p;
              finalizers := finalizers p |}.
Proof.
  intros self script p. unfold Session.CreateScript.
  destruct (CreateScriptWithOptions_releases self script None _ _ p _
              (options_or_default_nil p) (lookup_snoc _ _) (le_n 1) I)
    as [r Heq].
  exists r. rewrite Heq. simpl. now rewrite insert_snoc.
Qed.




Lemma release_snapshot_other (x : FridaScriptOptions) g i :
  (forall a, priv_snapshot x = Some a -> a <> i) ->
  release_snapshot x g !! i = g !! i.
Proof.
  intros Hne. unfold release_snapshot.
  destruct (priv_snapshot x) as [a|]; auto.
  destruct (g !! a) as [[b|]|]; auto.
  apply list_lookup_insert_ne. now apply Hne.
Qed.






Lemma CompileScript_releases `{E : C.Engine} self script opts o x p pC :
  Session.options_or_default opts p = Ok o pC ->
  script_options pC !! ScriptOptions.opts o = Some (Some x) ->
  ref_count x <= 1 ->
  match priv_snapshot x with
  | None => True
  | Some a => exists b, gbytes pC !! a = Some (Some b)
  end ->
  exists view,
    let r := C.frida_session_compile_script_sync
               (Session.s self) (C.CString script) view in
    Session.CompileScript self script opts p =
      Ok (match snd r, fst r with
          | None, Some data => data
          | _, _ => []
          end, handleGError (snd r))
         {| script_options :=
              <[ScriptOptions.opts o := None]> (script_options pC);
            gbytes :=
              release_snapshot x
                (gbytes pC ++
                 match fst r with
                 | Some data => [Some {| g_ref_count := 1; g_data := data |}]
                 | None => []
                 end);
            finalizers := finalizers pC |}.
Proof.
  intros Hprep Ho Hrc Hs.
  unfold Session.CompileScript.
  rewrite (bind_ok _ _ _ _ _ Hprep).
  destruct (script_options_read_ok _ _ _ Ho Hs) as (view & Hread & _).
  exists view.
  rewrite (bind_ok _ _ _ _ _ Hread).
  destruct (C.frida_session_compile_script_sync _ _ view) as [r err].
  destruct r as [data|]; simpl.
  - unfold C.g_bytes_new. unfold bind at 1. unfold bind at 1. unfold ret at 1.
    set (pD := {| script_options := script_options pC;
                  gbytes := gbytes pC ++ [Some {| g_ref_count := 1;
                                                  g_data := data |}];
                  finalizers := finalizers pC |}).
    pose proof (frida_unref_last (ScriptOptions.opts o) x pD Ho Hrc
                  (snapshot_valid_snoc x (gbytes pC) _ Hs)) as Hunref.
    destruct err as [g|].
    + now rewrite (bind_ok _ _ _ _ _ Hunref).
    + unfold getGBytes. unfold bind at 1. unfold bind at 1.
      rewrite (gbytes_deref_ok (length (gbytes pC)) _ pD (lookup_snoc _ _)).
      unfold ret at 1. now rewrite (bind_ok _ _ _ _ _ Hunref).
  - rewrite app_nil_r.
    pose proof (frida_unref_last _ _ _ Ho Hrc Hs) as Hunref.
    destruct err as [g|]; cbv [bind ret getGBytes]; now rewrite Hunref.
Qed.

(** X15: [CompileScript] uses up the options like the script-creating
    methods, and it never releases the blob the engine returned: after
    the call that blob still holds its one reference and no finalizer
    has been registered for it. *)
Theorem CompileScript_keeps_the_result_blob `{E : C.Engine} :
  forall self script opts p,
    (forall o, opts = Some o ->
               options_valid o p = true /\
               forall x, script_options p !! ScriptOptions.opts o = Some (Some x) ->
                         ref_count x <= 1) ->
    exists view p',
      let r := C.frida_session_compile_script_sync
                 (Session.s self) (C.CString script) view in
      Session.CompileScript self script opts p =
        Ok (match snd r, fst r with
            | None, Some data => data
            | _, _ => []
            end, handleGError (snd r)) p' /\
      (forall o, opts = Some o ->
                 script_options p' !! ScriptOptions.opts o = Some None) /\
      (opts = None -> script_options p' = script_options p ++ [None]) /\
      finalizers p' = finalizers p /\
      (forall data,
         fst r = Some data ->
         gbytes p' !! length (gbytes p) =
           Some (Some {| g_ref_count := 1; g_data := data |})).
Proof.
  intros self script opts p Hvalid.
  assert (Hmain : exists o x pC,
             Session.options_or_default opts p = Ok o pC /\
             gbytes pC = gbytes p /\
             finalizers pC = finalizers p /\
             script_options pC !! ScriptOptions.opts o = Some (Some x) /\
             ref_count x <= 1 /\
             match priv_snapshot x with
             | None => True
             | Some a => exists b, gbytes pC !! a = Some (Some b)
             end /\
             (forall o', opts = Some o' -> o' = o) /\
             (opts = None ->
              <[ScriptOptions.opts o := None]> (script_options pC) =
              script_options p ++ [None])).
  { destruct opts as [o|].
    - destruct (Hvalid o eq_refl) as [Hv Hrc].
      destruct (options_valid_inv o p Hv) as (x & Ho & Hs).
      exists o, x, p. split; [reflexivity|].
      repeat split; auto; [congruence|discriminate].
    - eexists _, _, _. split; [apply options_or_default_nil|]. simpl.
      split; [reflexivity|]. split; [reflexivity|].
      split; [apply lookup_snoc|]. split; [simpl; lia|].
      split; [exact I|]. split; [discriminate|].
      intros _. apply insert_snoc. }
  destruct Hmain as (o & x & pC & Hprep & Hgb & Hfin & Ho & Hrc & Hs &
                     Hsame & Hnil).
  destruct (CompileScript_releases self script opts o x p pC Hprep Ho Hrc Hs)
    as [view Heq].
  assert (Hlt : ScriptOptions.opts o < length (script_options pC))
    by (eapply lookup_lt_Some; eauto).
  exists view. eexists. split; [exact Heq|]. simpl.
  split; [intros o' Ho'; rewrite (Hsame o' Ho');
          now apply list_lookup_insert_eq|].
  split; [exact Hnil|]. split; [exact Hfin|].
  intros data Hdata. rewrite Hdata.
  rewrite release_snapshot_other.
  - rewrite <- Hgb. apply lookup_snoc.
  - intros a Ha. rewrite Ha in Hs. destruct Hs as [b Hb].
    apply lookup_lt_Some in Hb. rewrite Hgb in Hb. lia.
Qed.

Lemma CompileScript_keeps_the_result_blob_witness :
  exists r p',
    Session.CompileScript (E := accepting_engine)
      a_session "send(1)" (Some unnamed_options) unnamed_process = Ok r p' /\
    gbytes p' !! 0 = Some (Some {| g_ref_count := 1; g_data := [x2a%byte] |}) /\
    finalizers p' = [].
Proof.
  destruct (CompileScript_keeps_the_result_blob
              (E := accepting_engine) a_session "send(1)"
              (Some unnamed_options) unnamed_process)
    as (view & p' & Heq & _ & _ & Hfin & Hblob).
  { intros o [= <-]. split; [reflexivity|].
    intros x Hx. vm_compute in Hx. inversion Hx; subst. simpl. lia. }
  eexists. exists p'. split; [exact Heq|].
  split; [exact (Hblob _ eq_refl)|exact Hfin].
Defined.
